(** * Fare settlement engine of the shuttle system (system.py)

    A shallow embedding of [process_rider_tap] and [handle_end_of_shift]
    together with the SQLite tables they read and write, and the proofs of
    the properties of the fare settlement engine.

    Conventions of the embedding:
    - a table is the list of its rows in rowid order, so [fetchone] is the
      first matching row and [fetchall] the matching rows in order;
    - a REAL column holds a Python float, that is an IEEE binary64 number,
      modelled by Rocq's primitive [float]; a number is read back as it was
      written, but for -0.0, which is read back as 0.0 (SQLite keeps a
      float that is a whole number as an integer), and binding NaN to a
      NOT NULL column raises [sqlite3.IntegrityError], SQLite storing NaN
      as NULL;
    - [ORDER BY stop_order DESC LIMIT 1] returns the first row in rowid
      order among those of highest [stop_order]; the properties below use
      only that its [stop_order] is the highest;
    - code that runs on a connection is written in a small monad which
      threads the pending transaction, the standard output, the number of
      statements executed and the number of clock readings, and in which a
      computation ends normally, by a Python [return], or by raising;
    - every [cursor.execute] and every [conn.commit] may raise
      [sqlite3.OperationalError]: the environment says which ones do. *)

From Stdlib Require Import ZArith List Ascii String Bool Lia Floats Uint63.
Import ListNotations.
Open Scope string_scope.
Open Scope Z_scope.
Set Warnings "-inexact-float".

(** * The embedding *)

(** ** Python floats *)
Module PyFloat.

(** [n / d] rounded to the nearest integer, ties to the even one ([0 < d]). *)
Definition half_even (n d : Z) : Z :=
  let q := n / d in
  let r := n mod d in
  match 2 * r ?= d with
  | Lt => q
  | Gt => q + 1
  | Eq => if Z.even q then q else q + 1
  end.

(** [round(x, 2)] on a float.  CPython rounds the exact value of [x] to two
    decimal places, ties to even, and returns the float nearest to that
    decimal; infinities and NaN round to themselves.  [k] below is the
    number of hundredths; from [2 ^ 53] hundredths on, consecutive floats
    are more than 0.01 apart and the nearest float is [x] itself. *)
Definition round2 (x : float) : float :=
  match Prim2SF x with
  | S754_finite s m e =>
      let k := if 0 <=? e then Z.pos m * 100 * 2 ^ e
               else half_even (Z.pos m * 100) (2 ^ (- e)) in
      if 2 ^ 53 <=? k then x
      else let r := (of_uint63 (of_Z k) / 100)%float in
           if s then (- r)%float else r
  | _ => x
  end.

End PyFloat.

(** ** The enumerations *)

Inductive UserRole := RIDER | DRIVER | ADMIN.

Inductive TripStatus := ACTIVE | COMPLETED | AUTO_COMPLETED.

Inductive TransactionType := RIDE_PAYMENT | ADD_FUNDS | ADMIN_ADJUSTMENT.

Definition TripStatus_eqb (a b : TripStatus) : bool :=
  match a, b with
  | ACTIVE, ACTIVE | COMPLETED, COMPLETED | AUTO_COMPLETED, AUTO_COMPLETED => true
  | _, _ => false
  end.

(** ** The tables of [setup_database] *)

Record user := mk_user
  { user_id : Z;
    username : string;
    email : string;
    password_hash : string;
    role : UserRole;
    wallet_balance : float }.

Record shuttle := mk_shuttle
  { shuttle_row_id : Z; shuttle_name : string; capacity : Z }.

Record stop := mk_stop
  { stop_row_id : Z; stop_name : string }.

Record route := mk_route
  { route_id : Z;
    route_name : string;
    base_fare : float;
    price_per_km : float }.

Record route_stop := mk_route_stop
  { rs_id : Z;
    rs_route_id : Z;
    rs_stop_id : Z;
    stop_order : Z;
    distance_from_start : float }.

Record active_trip := mk_active_trip
  { trip_id : Z;
    rider_id : Z;
    shuttle_id : Z;
    tap_on_route_stop_id : Z;
    tap_on_time : string;
    status : TripStatus }.

Record transaction_log := mk_transaction_log
  { tx_id : Z;
    tx_rider_id : Z;
    amount : float;
    tx_type : TransactionType;
    timestamp : string;
    related_trip_id : option Z }.

Record db := mk_db
  { users : list user;
    shuttles : list shuttle;
    stops : list stop;
    routes : list route;
    route_stops : list route_stop;
    active_trips : list active_trip;
    transaction_logs : list transaction_log }.

Definition empty_db : db := mk_db [] [] [] [] [] [] [].

(** ** SQL statements of the settlement engine *)

Module Sql.

(** The id an AUTOINCREMENT table gives to its next row: one more than the
    largest id in use (no statement of the program deletes a row). *)
Definition next_id {A} (id : A -> Z) (rows : list A) : Z :=
  1 + fold_left (fun m r => Z.max m (id r)) rows 0.

(** [SELECT * FROM user WHERE username = ?], [fetchone]. *)
Definition user_by_username (name : string) (d : db) : option user :=
  find (fun u => String.eqb (username u) name) (users d).

(** [SELECT * FROM user WHERE id = ?], [fetchone]. *)
Definition user_by_id (id : Z) (d : db) : option user :=
  find (fun u => user_id u =? id) (users d).

(** [SELECT * FROM route_stop WHERE id = ?], [fetchone]. *)
Definition route_stop_by_id (id : Z) (d : db) : option route_stop :=
  find (fun s => rs_id s =? id) (route_stops d).

(** [SELECT * FROM route WHERE id = ?], [fetchone]. *)
Definition route_by_id (id : Z) (d : db) : option route :=
  find (fun r => route_id r =? id) (routes d).

Definition is_active_of (rider : Z) (t : active_trip) : bool :=
  (rider_id t =? rider) && TripStatus_eqb (status t) ACTIVE.

(** [SELECT * FROM active_trip WHERE rider_id = ? AND status = 'Active'],
    [fetchone]. *)
Definition active_trip_of_rider (rider : Z) (d : db) : option active_trip :=
  find (is_active_of rider) (active_trips d).

Definition is_active_on (sh : Z) (t : active_trip) : bool :=
  (shuttle_id t =? sh) && TripStatus_eqb (status t) ACTIVE.

(** [SELECT * FROM active_trip WHERE shuttle_id = ? AND status = 'Active'],
    [fetchall]. *)
Definition active_trips_on_shuttle (sh : Z) (d : db) : list active_trip :=
  filter (is_active_on sh) (active_trips d).

(** The row that a descending sort on [stop_order] puts first; among rows
    of equal [stop_order] (SQL leaves their order open) the one of lowest
    rowid is kept. *)
Definition highest_order (acc : option route_stop) (s : route_stop)
  : option route_stop :=
  match acc with
  | None => Some s
  | Some b => if stop_order b <? stop_order s then Some s else Some b
  end.

(** [SELECT * FROM route_stop WHERE route_id = ?
     ORDER BY stop_order DESC LIMIT 1], [fetchone]. *)
Definition last_stop_of_route (rid : Z) (d : db) : option route_stop :=
  fold_left highest_order
    (filter (fun s => rs_route_id s =? rid) (route_stops d)) None.

Definition set_wallet_balance (b : float) (u : user) : user :=
  mk_user (user_id u) (username u) (email u) (password_hash u) (role u) b.

Definition set_status (st : TripStatus) (t : active_trip) : active_trip :=
  mk_active_trip (trip_id t) (rider_id t) (shuttle_id t)
    (tap_on_route_stop_id t) (tap_on_time t) st.

Definition with_users (us : list user) (d : db) : db :=
  mk_db us (shuttles d) (stops d) (routes d) (route_stops d)
    (active_trips d) (transaction_logs d).

Definition with_active_trips (ts : list active_trip) (d : db) : db :=
  mk_db (users d) (shuttles d) (stops d) (routes d) (route_stops d)
    ts (transaction_logs d).

Definition with_transaction_logs (ls : list transaction_log) (d : db) : db :=
  mk_db (users d) (shuttles d) (stops d) (routes d) (route_stops d)
    (active_trips d) ls.

(** What a REAL column gives back for the float written to it.  SQLite
    keeps a float that is a whole number as an integer and turns it into a
    float again when the row is read, so that -0.0 comes back as 0.0; every
    other number comes back as it was written. *)
Definition real (x : float) : float := if (x =? 0)%float then 0%float else x.

(** [UPDATE user SET wallet_balance = ? WHERE id = ?].  SQLite binds a NaN
    as NULL, which the NOT NULL constraint of the column refuses for a row
    the statement would change: the statement then raises and changes
    nothing. *)
Definition update_wallet_balance (b : float) (id : Z) (d : db) : option db :=
  if is_nan b && existsb (fun u => user_id u =? id) (users d) then None
  else Some (with_users
               (map (fun u => if user_id u =? id
                              then set_wallet_balance (real b) u else u)
                  (users d)) d).

(** [INSERT INTO transaction_log (rider_id, amount, type, timestamp,
    related_trip_id) VALUES (?, ?, ?, ?, ?)]; [amount] is NOT NULL. *)
Definition insert_transaction_log (rider : Z) (a : float) (ty : TransactionType)
    (ts : string) (trip : option Z) (d : db) : option db :=
  if is_nan a then None
  else Some (with_transaction_logs
               (transaction_logs d ++
                  [mk_transaction_log (next_id tx_id (transaction_logs d))
                     rider (real a) ty ts trip]) d).

(** [UPDATE active_trip SET status = ? WHERE id = ?]. *)
Definition update_trip_status (st : TripStatus) (id : Z) (d : db) : option db :=
  Some (with_active_trips
          (map (fun t => if trip_id t =? id then set_status st t else t)
             (active_trips d)) d).

(** [INSERT INTO active_trip (rider_id, shuttle_id, tap_on_route_stop_id,
    tap_on_time, status) VALUES (?, ?, ?, ?, ?)]. *)
Definition insert_active_trip (rider sh rs : Z) (ts : string) (st : TripStatus)
    (d : db) : option db :=
  Some (with_active_trips
          (active_trips d ++
             [mk_active_trip (next_id trip_id (active_trips d)) rider sh rs ts st]) d).

End Sql.

(** ** Code that runs on a connection *)

(** The exceptions the engine can meet: subscripting the [None] of an empty
    [fetchone], a constraint refused by SQLite, a statement SQLite could not
    carry out. *)
Inductive exn := TypeError | IntegrityError | OperationalError.

(** The lines the engine prints, with the values interpolated in them. *)
Inductive line :=
| RiderNotFound (rider_username : string)
| AlreadyTappedOn (name : string)
| TappingOff (name : string)
| FareNewBalance (fare new_balance : float)
| ForgotToTapOff (name : string)
| ChargedMaxFare (max_fare new_balance : float)
| TappingOn (name : string)
| TapOnFailed (min has : float)
| TapOnSuccessful
| AnErrorOccurred (e : exn)
| EndingShift
| NoActiveTrips
| Resolving (n : nat)
| AutoCompletedTrip (name : string) (max_fare : float)
| ErrorResolving (trip : Z) (e : exn).

(** What the program does not decide: which statements SQLite fails to
    carry out (by their rank on the connection) and what the clock says (by
    the rank of the reading). *)
Record env := mk_env
  { fails : nat -> bool;
    clock : nat -> string }.

(** A connection: the database as committed, the database as the pending
    transaction sees it, the statements executed, the clock readings, and
    what was printed. *)
Record conn := mk_conn
  { committed : db;
    pending : db;
    executed : nat;
    ticks : nat;
    stdout : list line }.

Inductive outcome (A : Type) :=
| Normal (a : A)
| Returned
| Raised (e : exn).

Arguments Normal {A} a.

Arguments Returned {A}.

Arguments Raised {A} e.

Definition M (A : Type) : Type := env -> conn -> outcome A * conn.

Definition ret {A} (a : A) : M A := fun _ c => (Normal a, c).

Definition bind {A B} (m : M A) (k : A -> M B) : M B :=
  fun e c =>
    match m e c with
    | (Normal a, c') => k a e c'
    | (Returned, c') => (Returned, c')
    | (Raised ex, c') => (Raised ex, c')
    end.

Declare Scope py_scope.

Delimit Scope py_scope with py.

Notation "x <- m ;; k" := (bind m (fun x => k))
  (at level 100, m at next level, right associativity) : py_scope.

Notation "' p <- m ;; k" := (bind m (fun x => match x with p => k end))
  (at level 100, p pattern, m at next level, right associativity) : py_scope.

Notation "m ;; k" := (bind m (fun _ => k))
  (at level 100, right associativity) : py_scope.

Open Scope py_scope.

(** [return] (of [None]) inside a function body. *)
Definition py_return {A} : M A := fun _ c => (Returned, c).

Definition raise {A} (ex : exn) : M A := fun _ c => (Raised ex, c).

(** [row['column']]: a [TypeError] when [fetchone] gave [None]. *)
Definition subscript {A} (row : option A) : M A :=
  match row with
  | Some r => ret r
  | None => raise TypeError
  end.

Definition print (l : line) : M unit :=
  fun _ c => (Normal tt,
              mk_conn (committed c) (pending c) (executed c) (ticks c)
                (stdout c ++ [l])).

(** [datetime.datetime.now().isoformat()]. *)
Definition now : M string :=
  fun e c => (Normal (clock e (ticks c)),
              mk_conn (committed c) (pending c) (executed c) (S (ticks c))
                (stdout c)).

Definition count_statement (c : conn) : conn :=
  mk_conn (committed c) (pending c) (S (executed c)) (ticks c) (stdout c).

(** [cursor.execute] of a SELECT followed by [fetchone] or [fetchall]. *)
Definition fetch {A} (q : db -> A) : M A :=
  fun e c =>
    if fails e (executed c) then (Raised OperationalError, count_statement c)
    else (Normal (q (pending c)), count_statement c).

(** [cursor.execute] of an UPDATE or INSERT: a statement that raises leaves
    the pending transaction as it was. *)
Definition execute (w : db -> option db) : M unit :=
  fun e c =>
    if fails e (executed c) then (Raised OperationalError, count_statement c)
    else match w (pending c) with
         | Some d => (Normal tt,
                      mk_conn (committed c) d (S (executed c)) (ticks c) (stdout c))
         | None => (Raised IntegrityError, count_statement c)
         end.

(** [conn.commit()]. *)
Definition commit : M unit :=
  fun e c =>
    if fails e (executed c) then (Raised OperationalError, count_statement c)
    else (Normal tt,
          mk_conn (pending c) (pending c) (S (executed c)) (ticks c) (stdout c)).

(** [conn.rollback()]. *)
Definition rollback : M unit :=
  fun _ c => (Normal tt,
              mk_conn (committed c) (committed c) (executed c) (ticks c) (stdout c)).

(** [try: body / except Exception as e: handler]. *)
Definition try_except (body : M unit) (handler : exn -> M unit) : M unit :=
  fun e c =>
    match body e c with
    | (Raised ex, c') => handler ex e c'
    | r => r
    end.

(** [for x in l: body]. *)
Fixpoint for_each {A} (l : list A) (body : A -> M unit) : M unit :=
  match l with
  | [] => ret tt
  | x :: l' => body x;; for_each l' body
  end.

(** What a call leaves behind: the database once its connection is gone
    (what was not committed is lost), what it printed, and the exception it
    let through, if any. *)
Record result := mk_result
  { final : db;
    printed : list line;
    raised : option exn }.

(** [get_db_connection()]. *)
Definition get_db_connection (d : db) : conn := mk_conn d d 0 0 [].

Definition run (m : M unit) (e : env) (d : db) : result :=
  let (o, c) := m e (get_db_connection d) in
  mk_result (committed c) (stdout c)
    match o with Raised ex => Some ex | _ => None end.

(** ** [process_rider_tap] *)

Import PyFloat.

(** The body of the [try] block.  [current_route_stop] is the id of the row
    the driver's session passes in (only its [id] is read). *)
Definition process_rider_tap_try (rider_username : string)
    (current_route_stop : Z) (shuttle_id : Z) : M unit :=
  rider <- fetch (Sql.user_by_username rider_username);;
  match rider with
  | None => print (RiderNotFound rider_username);; py_return
  | Some rider =>
    current_stop_data <- fetch (Sql.route_stop_by_id current_route_stop);;
    current_stop <- subscript current_stop_data;;
    route_data <- fetch (Sql.route_by_id (rs_route_id current_stop));;
    active_trip <- fetch (Sql.active_trip_of_rider (user_id rider));;
    '(rider_data, active_trip) <-
      match active_trip with
      | Some trip =>
        tap_on_stop_data <- fetch (Sql.route_stop_by_id (tap_on_route_stop_id trip));;
        if tap_on_route_stop_id trip =? rs_id current_stop then
          print (AlreadyTappedOn (username rider));; py_return
        else
          tap_on_stop <- subscript tap_on_stop_data;;
          if rs_route_id tap_on_stop =? rs_route_id current_stop then
            print (TappingOff (username rider));;
            let dist_on := distance_from_start tap_on_stop in
            let dist_off := distance_from_start current_stop in
            let distance_traveled := abs (dist_off - dist_on) in
            route <- subscript route_data;;
            let fare := (base_fare route + distance_traveled * price_per_km route)%float in
            let fare := round2 fare in
            let new_balance := (wallet_balance rider - fare)%float in
            execute (Sql.update_wallet_balance new_balance (user_id rider));;
            ts <- now;;
            execute (Sql.insert_transaction_log (user_id rider) (- fare)
                       RIDE_PAYMENT ts (Some (trip_id trip)));;
            execute (Sql.update_trip_status COMPLETED (trip_id trip));;
            print (FareNewBalance fare new_balance);;
            ret (Some rider, Some trip)
          else
            print (ForgotToTapOff (username rider));;
            let old_route_id := rs_route_id tap_on_stop in
            last_stop_data <- fetch (Sql.last_stop_of_route old_route_id);;
            old_route_data <- fetch (Sql.route_by_id old_route_id);;
            last_stop <- subscript last_stop_data;;
            let max_dist :=
              abs (distance_from_start last_stop - distance_from_start tap_on_stop) in
            old_route <- subscript old_route_data;;
            let max_fare := (base_fare old_route + max_dist * price_per_km old_route)%float in
            let max_fare := round2 max_fare in
            let new_balance := (wallet_balance rider - max_fare)%float in
            execute (Sql.update_wallet_balance new_balance (user_id rider));;
            ts <- now;;
            execute (Sql.insert_transaction_log (user_id rider) (- max_fare)
                       RIDE_PAYMENT ts (Some (trip_id trip)));;
            execute (Sql.update_trip_status AUTO_COMPLETED (trip_id trip));;
            print (ChargedMaxFare max_fare new_balance);;
            rider_data <- fetch (Sql.user_by_id (user_id rider));;
            ret (rider_data, None)
      | None => ret (Some rider, None)
      end;;
    match active_trip with
    | None =>
      rider <- subscript rider_data;;
      print (TappingOn (username rider));;
      route <- subscript route_data;;
      if (wallet_balance rider <? base_fare route)%float then
        print (TapOnFailed (base_fare route) (wallet_balance rider));; py_return
      else
        ts <- now;;
        execute (Sql.insert_active_trip (user_id rider) shuttle_id
                   (rs_id current_stop) ts ACTIVE);;
        print TapOnSuccessful
    | Some _ => ret tt
    end;;
    commit
  end.

(** The whole function: [try] / [except Exception] with its rollback /
    [finally] closing the connection. *)
Definition process_rider_tap (e : env) (rider_username : string)
    (current_route_stop : Z) (shuttle_id : Z) (d : db) : result :=
  run (try_except
         (process_rider_tap_try rider_username current_route_stop shuttle_id)
         (fun ex => print (AnErrorOccurred ex);; rollback)) e d.

(** ** [handle_end_of_shift] *)

(** The body of the [try] block of the loop, for one trip. *)
Definition handle_end_of_shift_try (trip : active_trip) : M unit :=
  rider <- fetch (Sql.user_by_id (rider_id trip));;
  tap_on_stop_data <- fetch (Sql.route_stop_by_id (tap_on_route_stop_id trip));;
  tap_on_stop <- subscript tap_on_stop_data;;
  let route_id := rs_route_id tap_on_stop in
  route_data <- fetch (Sql.route_by_id route_id);;
  last_stop_data <- fetch (Sql.last_stop_of_route route_id);;
  last_stop <- subscript last_stop_data;;
  let max_dist :=
    abs (distance_from_start last_stop - distance_from_start tap_on_stop) in
  route <- subscript route_data;;
  let max_fare := (base_fare route + max_dist * price_per_km route)%float in
  let max_fare := round2 max_fare in
  rider <- subscript rider;;
  let new_balance := (wallet_balance rider - max_fare)%float in
  execute (Sql.update_wallet_balance new_balance (user_id rider));;
  ts <- now;;
  execute (Sql.insert_transaction_log (user_id rider) (- max_fare)
             RIDE_PAYMENT ts (Some (trip_id trip)));;
  execute (Sql.update_trip_status AUTO_COMPLETED (trip_id trip));;
  print (AutoCompletedTrip (username rider) max_fare).

(** One turn of the loop: the [try] block and its [except], which only
    prints. *)
Definition handle_end_of_shift_step (trip : active_trip) : M unit :=
  try_except (handle_end_of_shift_try trip)
    (fun ex => print (ErrorResolving (trip_id trip) ex)).

Definition handle_end_of_shift_body (shuttle_id : Z) : M unit :=
  print EndingShift;;
  active_trips <- fetch (Sql.active_trips_on_shuttle shuttle_id);;
  match active_trips with
  | [] => print NoActiveTrips;; py_return
  | _ :: _ =>
    print (Resolving (List.length active_trips));;
    for_each active_trips handle_end_of_shift_step;;
    commit
  end.

Definition handle_end_of_shift (e : env) (shuttle_id : Z) (d : db) : result :=
  run (handle_end_of_shift_body shuttle_id) e d.

(** ** [seed_data] *)

(** The rows [seed_data] inserts into an empty database; the password
    hashes are the SHA-256 digests of admin123, driver123 and rider123. *)
Definition seed_data (d : db) : db :=
  match find (fun u => String.eqb (username u) "admin") (users d) with
  | Some _ => d
  | None =>
    mk_db
      (users d ++
       [mk_user 1 "admin" "admin@campus.edu"
          "240be518fabd2724ddb6f04eeb1da5967448d7e831c08c8fa822809f74c720a9"
          ADMIN 0%float;
        mk_user 2 "driver1" "driver1@campus.edu"
          "494d022492052a06f8f81949639a1d148c1051fa3d4e4688fbd96efe649cd382"
          DRIVER 0%float;
        mk_user 3 "rider1" "rider1@campus.edu"
          "e85978062768502c68bfd953d2d3793cf799b6abe697543512d8bc41bc60e210"
          RIDER 10%float])
      (shuttles d ++ [mk_shuttle 1 "Shuttle #1" 15])
      (stops d ++
       [mk_stop 1 "Library"; mk_stop 2 "Engineering Bldg";
        mk_stop 3 "Dorm Quad"; mk_stop 4 "Student Union"])
      (routes d ++ [mk_route 1 "Campus Loop" 0.5%float 0.25%float])
      (route_stops d ++
       [mk_route_stop 1 1 1 1 0%float;
        mk_route_stop 2 1 2 2 0x1.999999999999ap-1%float;
        mk_route_stop 3 1 3 3 1.5%float;
        mk_route_stop 4 1 4 4 0x1.0cccccccccccdp+1%float])
      (active_trips d)
      (transaction_logs d)
  end.

(** ** Other statements of the program, to build databases from *)

(** The INSERT of [create_route] and the INSERT of [add_stop_to_route]. *)
Definition insert_route (name : string) (base_fare price_per_km : float)
    (d : db) : db :=
  mk_db (users d) (shuttles d) (stops d)
    (routes d ++
       [mk_route (Sql.next_id route_id (routes d)) name (Sql.real base_fare)
          (Sql.real price_per_km)])
    (route_stops d) (active_trips d) (transaction_logs d).

Definition insert_route_stop (route stop order : Z) (distance : float)
    (d : db) : db :=
  mk_db (users d) (shuttles d) (stops d) (routes d)
    (route_stops d ++
       [mk_route_stop (Sql.next_id rs_id (route_stops d)) route stop order
          (Sql.real distance)])
    (active_trips d) (transaction_logs d).

(** The INSERT of [register_user], given the digest of the password: a
    rider with the default balance 0.0. *)
Definition insert_rider (name mail digest : string) (d : db) : db :=
  Sql.with_users
    (users d ++
       [mk_user (Sql.next_id user_id (users d)) name mail digest RIDER 0])%list d.

(** The UPDATE and the INSERT of [add_funds], for an amount it accepts. *)
Definition add_funds (uid : Z) (amount : float) (ts : string) (d : db) : db :=
  mk_db
    (map (fun u => if user_id u =? uid
                   then Sql.set_wallet_balance
                          (Sql.real (wallet_balance u + amount)) u
                   else u) (users d))
    (shuttles d) (stops d) (routes d) (route_stops d) (active_trips d)
    (transaction_logs d ++
       [mk_transaction_log (Sql.next_id tx_id (transaction_logs d)) uid
          (Sql.real amount) ADD_FUNDS ts None])%list.

(** ** The interactive program: accounts, administration, driver sessions *)

(** Statements of the interactive functions. *)
Module Query.

(** [INSERT INTO user (username, email, password_hash, role) VALUES
    (?, ?, ?, ?)]: [username] and [email] are UNIQUE, the balance takes its
    default 0.0. *)
Definition insert_user (name mail digest : string) (r : UserRole) (d : db)
  : option db :=
  if existsb (fun u => String.eqb (username u) name || String.eqb (email u) mail)
       (users d)
  then None
  else Some (Sql.with_users
               (users d ++
                  [mk_user (Sql.next_id user_id (users d)) name mail digest r 0])%list
               d).

(** [UPDATE user SET wallet_balance = wallet_balance + ? WHERE id = ?]: a
    sum that is not a number is NULL, which the column refuses. *)
Definition add_to_wallet_balance (a : float) (id : Z) (d : db) : option db :=
  if existsb (fun u => (user_id u =? id) && is_nan (wallet_balance u + a)) (users d)
  then None
  else Some (Sql.with_users
               (map (fun u => if user_id u =? id
                              then Sql.set_wallet_balance
                                     (Sql.real (wallet_balance u + a)) u
                              else u) (users d)) d).

(** [INSERT INTO stop (name) VALUES (?)]: [name] is UNIQUE. *)
Definition insert_stop (name : string) (d : db) : option db :=
  if existsb (fun s => String.eqb (stop_name s) name) (stops d) then None
  else Some (mk_db (users d) (shuttles d)
               (stops d ++ [mk_stop (Sql.next_id stop_row_id (stops d)) name])
               (routes d) (route_stops d) (active_trips d) (transaction_logs d)).

(** [INSERT INTO shuttle (name, capacity) VALUES (?, ?)]. *)
Definition insert_shuttle (name : string) (cap : Z) (d : db) : option db :=
  Some (mk_db (users d)
          (shuttles d ++ [mk_shuttle (Sql.next_id shuttle_row_id (shuttles d)) name cap])
          (stops d) (routes d) (route_stops d) (active_trips d)
          (transaction_logs d)).

(** [INSERT INTO route (name, base_fare, price_per_km) VALUES (?, ?, ?)]:
    [name] is UNIQUE, the fares are NOT NULL. *)
Definition insert_route (name : string) (base per_km : float) (d : db)
  : option db :=
  if is_nan base || is_nan per_km
     || existsb (fun r => String.eqb (route_name r) name) (routes d)
  then None
  else Some (mk_db (users d) (shuttles d) (stops d)
               (routes d ++
                  [mk_route (Sql.next_id route_id (routes d)) name (Sql.real base)
                     (Sql.real per_km)])
               (route_stops d) (active_trips d) (transaction_logs d)).

(** [INSERT INTO route_stop (route_id, stop_id, stop_order,
    distance_from_start) VALUES (?, ?, ?, ?)]: the distance is NOT NULL;
    the connection does not enforce the foreign keys. *)
Definition insert_route_stop (rid sid order : Z) (distance : float) (d : db)
  : option db :=
  if is_nan distance then None
  else Some (mk_db (users d) (shuttles d) (stops d) (routes d)
               (route_stops d ++
                  [mk_route_stop (Sql.next_id rs_id (route_stops d)) rid sid order
                     (Sql.real distance)])
               (active_trips d) (transaction_logs d)).

(** [SELECT * FROM shuttle WHERE id = ?], [fetchone]. *)
Definition shuttle_by_id (id : Z) (d : db) : option shuttle :=
  find (fun s => shuttle_row_id s =? id) (shuttles d).

(** A row of the query by which a session lists the stops of its route. *)
Record session_stop := mk_session_stop
  { ss_id : Z;
    ss_stop_order : Z;
    ss_distance_from_start : float;
    ss_name : string;
    ss_route_name : string }.

(** [ORDER BY rs.stop_order]: rows of equal order (SQL leaves their order
    open) are kept in the order of the join. *)
Fixpoint insert_by_order (x : session_stop) (l : list session_stop)
  : list session_stop :=
  match l with
  | [] => [x]
  | y :: l' => if ss_stop_order x <=? ss_stop_order y then x :: y :: l'
               else y :: insert_by_order x l'
  end.

Definition order_by_stop_order (l : list session_stop) : list session_stop :=
  fold_right insert_by_order [] l.

(** [SELECT rs.id, rs.stop_order, rs.distance_from_start, s.name,
     r.name AS route_name FROM route_stop rs JOIN stop s ON rs.stop_id = s.id
     JOIN route r ON rs.route_id = r.id WHERE rs.route_id = ?
     ORDER BY rs.stop_order], [fetchall]. *)
Definition stops_of_route (rid : Z) (d : db) : list session_stop :=
  order_by_stop_order
    (flat_map
       (fun rs =>
          flat_map
            (fun s =>
               map (fun r => mk_session_stop (rs_id rs) (stop_order rs)
                               (distance_from_start rs) (stop_name s) (route_name r))
                 (filter (fun r => rs_route_id rs =? route_id r) (routes d)))
            (filter (fun s => rs_stop_id rs =? stop_row_id s) (stops d)))
       (filter (fun rs => rs_route_id rs =? rid) (route_stops d))).

End Query.

Module Cli.

(** What the functions of Python's library give on text: [float(s)] and
    [int(s)] ([None] when they raise [ValueError]), [s.strip()],
    [s.lower()], and [hashlib.sha256(s.encode()).hexdigest()].  They are
    not part of the program: the properties hold whatever they are. *)
Record library := mk_library
  { float_of_str : string -> option float;
    int_of_str : string -> option Z;
    str_strip : string -> string;
    str_lower : string -> string;
    sha256_hexdigest : string -> string }.

(** The exceptions of the interactive functions: those of the engine, and
    those of the terminal, of the conversions and of Python itself. *)
Inductive exception :=
| ValueError
| EOFError
| UnboundLocalError
| OverflowError
| IndexError
| Exn (e : exn).

(** A value interpolated in a printed line. *)
Inductive value :=
| Str (s : string)
| Int (z : Z)
| Real (x : float)
| Role (r : UserRole)
| Exc (e : exception).

(** What appears on the terminal: a line of [print], given by the text of
    its literal in the source and the values interpolated in it, in order;
    the prompt of an [input] or of a [getpass]; a line of the engine. *)
Inductive message :=
| Say (text : string) (args : list value)
| Ask (prompt : string)
| Engine (l : line).

(** What the program does not decide: the library, which statements SQLite
    fails to carry out (by their rank in the call), what the clock says (by
    the rank of the reading), and the environment of each call of the
    engine (by the rank of the call). *)
Record setting := mk_setting
  { python : library;
    sqlite_fails : nat -> bool;
    wall_clock : nat -> string;
    engine_env : nat -> env }.

(** The state of a run: the database as committed; the database as the
    connection last opened sees it (the program never has two connections
    with pending writes); whether the local variable [conn] of the running
    function is bound; the lines still to be typed; the terminal; the
    statements executed, the clock readings and the calls of the engine so
    far. *)
Record world := mk_world
  { database : db;
    transaction : db;
    conn_bound : bool;
    keyboard : list string;
    screen : list message;
    statements : nat;
    readings : nat;
    calls : nat }.

(** How a piece of code ends: normally, by a [return] (of [None]), by an
    exception, or not within the turns allowed to a loop. *)
Inductive completion (A : Type) :=
| Done (a : A)
| Return
| Raise (e : exception)
| Unfinished.

Arguments Done {A} a.

Arguments Return {A}.

Arguments Raise {A} e.

Arguments Unfinished {A}.

Definition IO (A : Type) : Type := setting -> world -> completion A * world.

Definition ret {A} (a : A) : IO A := fun _ w => (Done a, w).

Definition bind {A B} (m : IO A) (k : A -> IO B) : IO B :=
  fun s w =>
    match m s w with
    | (Done a, w') => k a s w'
    | (Return, w') => (Return, w')
    | (Raise ex, w') => (Raise ex, w')
    | (Unfinished, w') => (Unfinished, w')
    end.

Declare Scope io_scope.

Delimit Scope io_scope with io.

Notation "x <- m ;; k" := (bind m (fun x => k))
  (at level 100, m at next level, right associativity) : io_scope.

Notation "m ;; k" := (bind m (fun _ => k))
  (at level 100, right associativity) : io_scope.

Open Scope io_scope.

Definition py_return {A} : IO A := fun _ w => (Return, w).

Definition raise {A} (ex : exception) : IO A := fun _ w => (Raise ex, w).

Definition with_database (d : db) (w : world) : world :=
  mk_world d (transaction w) (conn_bound w) (keyboard w) (screen w)
    (statements w) (readings w) (calls w).

Definition with_transaction (d : db) (w : world) : world :=
  mk_world (database w) d (conn_bound w) (keyboard w) (screen w)
    (statements w) (readings w) (calls w).

Definition with_conn_bound (b : bool) (w : world) : world :=
  mk_world (database w) (transaction w) b (keyboard w) (screen w)
    (statements w) (readings w) (calls w).

Definition with_keyboard (k : list string) (w : world) : world :=
  mk_world (database w) (transaction w) (conn_bound w) k (screen w)
    (statements w) (readings w) (calls w).

Definition shows (m : list message) (w : world) : world :=
  mk_world (database w) (transaction w) (conn_bound w) (keyboard w)
    (screen w ++ m) (statements w) (readings w) (calls w).

Definition count_statement (w : world) : world :=
  mk_world (database w) (transaction w) (conn_bound w) (keyboard w) (screen w)
    (S (statements w)) (readings w) (calls w).

Definition count_reading (w : world) : world :=
  mk_world (database w) (transaction w) (conn_bound w) (keyboard w) (screen w)
    (statements w) (S (readings w)) (calls w).

Definition count_call (w : world) : world :=
  mk_world (database w) (transaction w) (conn_bound w) (keyboard w) (screen w)
    (statements w) (readings w) (S (calls w)).

(** [print(f"...")]. *)
Definition print (text : string) (args : list value) : IO unit :=
  fun _ w => (Done tt, shows [Say text args] w).

(** [input(prompt)] and [getpass.getpass(prompt)]: the next line typed, or
    [EOFError] when there is none. *)
Definition input (prompt : string) : IO string :=
  fun _ w =>
    match keyboard w with
    | [] => (Raise EOFError, shows [Ask prompt] w)
    | l :: ls => (Done l, with_keyboard ls (shows [Ask prompt] w))
    end.

Definition getpass (prompt : string) : IO string := input prompt.

(** [m.strip()] and [m.lower()]. *)
Definition strip (m : IO string) : IO string :=
  fun s w =>
    match m s w with
    | (Done l, w') => (Done (str_strip (python s) l), w')
    | r => r
    end.

Definition lower (m : IO string) : IO string :=
  fun s w =>
    match m s w with
    | (Done l, w') => (Done (str_lower (python s) l), w')
    | r => r
    end.

(** [float(m)] and [int(m)]. *)
Definition float (m : IO string) : IO PrimFloat.float :=
  l <- m;;
  fun s w =>
    match float_of_str (python s) l with
    | Some x => (Done x, w)
    | None => (Raise ValueError, w)
    end.

Definition int (m : IO string) : IO Z :=
  l <- m;;
  fun s w =>
    match int_of_str (python s) l with
    | Some z => (Done z, w)
    | None => (Raise ValueError, w)
    end.

(** [hash_password] and [check_password]. *)
Definition hash_password (password : string) : IO string :=
  fun s w => (Done (sha256_hexdigest (python s) password), w).

Definition check_password (stored_hash provided_password : string) : IO bool :=
  fun s w =>
    (Done (String.eqb stored_hash (sha256_hexdigest (python s) provided_password)),
     w).

(** [row['column']]. *)
Definition subscript {A} (row : option A) : IO A :=
  match row with
  | Some r => ret r
  | None => raise (Exn TypeError)
  end.

(** [l[i]] on a list. *)
Definition index {A} (l : list A) (i : Z) : IO A :=
  let n := Z.of_nat (List.length l) in
  match (if 0 <=? i then nth_error l (Z.to_nat i)
         else if - n <=? i then nth_error l (Z.to_nat (n + i)) else None) with
  | Some x => ret x
  | None => raise IndexError
  end.

(** [datetime.datetime.now().isoformat()]. *)
Definition now : IO string :=
  fun s w => (Done (wall_clock s (readings w)), count_reading w).

(** [conn = get_db_connection()]. *)
Definition get_db_connection : IO unit :=
  fun _ w => (Done tt, with_conn_bound true (with_transaction (database w) w)).

(** An int bound to a statement must fit SQLite's 64-bit INTEGER. *)
Definition fits_sqlite (z : Z) : bool := (- 2 ^ 63 <=? z) && (z <? 2 ^ 63).

(** [conn.execute] of a SELECT followed by [fetchone] or [fetchall]; [ints]
    are the Python ints bound to it: one that does not fit raises
    [OverflowError] before SQLite sees the statement. *)
Definition fetch_with {A} (ints : list Z) (q : db -> A) : IO A :=
  fun s w =>
    if negb (forallb fits_sqlite ints) then (Raise OverflowError, w)
    else if sqlite_fails s (statements w)
         then (Raise (Exn OperationalError), count_statement w)
         else (Done (q (transaction w)), count_statement w).

Definition fetch {A} (q : db -> A) : IO A := fetch_with [] q.

(** [conn.execute] of an UPDATE or INSERT: a statement that raises leaves
    the pending transaction as it was. *)
Definition execute_with (ints : list Z) (u : db -> option db) : IO unit :=
  fun s w =>
    if negb (forallb fits_sqlite ints) then (Raise OverflowError, w)
    else if sqlite_fails s (statements w)
         then (Raise (Exn OperationalError), count_statement w)
         else match u (transaction w) with
              | Some d => (Done tt, count_statement (with_transaction d w))
              | None => (Raise (Exn IntegrityError), count_statement w)
              end.

Definition execute (u : db -> option db) : IO unit := execute_with [] u.

(** [conn.commit()]. *)
Definition commit : IO unit :=
  fun s w =>
    if sqlite_fails s (statements w)
    then (Raise (Exn OperationalError), count_statement w)
    else (Done tt, count_statement (with_database (transaction w) w)).

(** [conn.rollback()] and [conn.close()]: the name [conn] must be bound. *)
Definition rollback : IO unit :=
  fun _ w =>
    if conn_bound w then (Done tt, with_transaction (database w) w)
    else (Raise UnboundLocalError, w).

Definition close : IO unit :=
  fun _ w =>
    if conn_bound w then (Done tt, with_transaction (database w) w)
    else (Raise UnboundLocalError, w).

(** [try: body / except ...: ...]: [handlers] gives the handler of the
    first clause that matches the exception, if any. *)
Definition try_except (body : IO unit) (handlers : exception -> option (IO unit))
  : IO unit :=
  fun s w =>
    match body s w with
    | (Raise ex, w') =>
        match handlers ex with
        | Some h => h s w'
        | None => (Raise ex, w')
        end
    | r => r
    end.

(** [try: body / finally: final]: what [final] raises replaces the way
    [body] ended. *)
Definition try_finally (body : IO unit) (final : IO unit) : IO unit :=
  fun s w =>
    match body s w with
    | (Unfinished, w') => (Unfinished, w')
    | (o, w') =>
        match final s w' with
        | (Done _, w'') => (o, w'')
        | r => r
        end
    end.

(** [for x in l: body]. *)
Fixpoint for_each {A} (l : list A) (body : A -> IO unit) : IO unit :=
  match l with
  | [] => ret tt
  | x :: l' => body x;; for_each l' body
  end.

(** A call of a function of the program: its local [conn] is its own, and
    its [return] ends it. *)
Definition call {A} (body : IO A) (none : A) : IO A :=
  fun s w =>
    match body s (with_conn_bound false w) with
    | (Done a, w') => (Done a, with_conn_bound (conn_bound w) w')
    | (Return, w') => (Done none, with_conn_bound (conn_bound w) w')
    | (Raise ex, w') => (Raise ex, with_conn_bound (conn_bound w) w')
    | (Unfinished, w') => (Unfinished, w')
    end.

(** A call of a function of the engine, which opens a connection of its
    own on the database. *)
Definition engine (f : env -> db -> result) : IO unit :=
  fun s w =>
    let r := f (engine_env s (calls w)) (database w) in
    (match raised r with
     | Some ex => Raise (Exn ex)
     | None => Done tt
     end,
     count_call (shows (map Engine (printed r)) (with_database (final r) w))).

(** *** [register_user] *)

Definition register_user : IO unit :=
  call
    (print "\n--- New User Registration ---" [];;
     username <- strip (input "Username: ");;
     email <- strip (input "Email: ");;
     password <- strip (getpass "Password: ");;
     password_confirm <- strip (getpass "Confirm Password: ");;
     if negb (String.eqb password password_confirm) then
       print "Passwords do not match. Please try again." [];;
       py_return
     else
       let role := RIDER in
       hashed_password <- hash_password password;;
       get_db_connection;;
       try_finally
         (try_except
            (execute (Query.insert_user username email hashed_password role);;
             commit;;
             print "Success! Rider account '{username}' created." [Str username])
            (fun ex =>
               match ex with
               | Exn IntegrityError =>
                   Some (print "Error: Username or email already exists. {e}"
                           [Exc ex])
               | _ => None
               end))
         close)
    tt.

(** *** [login_user] *)

Definition login_user : IO (option user) :=
  call
    (print "\n--- User Login ---" [];;
     username' <- strip (input "Username: ");;
     password <- strip (getpass "Password: ");;
     get_db_connection;;
     user <- fetch (Sql.user_by_username username');;
     close;;
     match user with
     | Some u =>
         ok <- check_password (password_hash u) password;;
         if ok then
           print "\nWelcome, {user['username']}! (Role: {user['role']})"
             [Str (username u); Role (role u)];;
           ret (Some u)
         else
           print "Invalid username or password." [];;
           ret None
     | None =>
         print "Invalid username or password." [];;
         ret None
     end)
    None.

(** *** [view_balance] *)

Definition view_balance (user : user) : IO unit :=
  call
    (get_db_connection;;
     balance <- fetch (Sql.user_by_id (user_id user));;
     close;;
     balance <- subscript balance;;
     print "\nYour current wallet balance is: ${balance['wallet_balance']:.2f}"
       [Real (wallet_balance balance)])
    tt.

(** *** [add_funds] *)

Definition add_funds (user : user) : IO unit :=
  call
    (print "\n--- Add Funds ---" [];;
     try_finally
       (try_except
          (amount <- float (input "Enter amount to add: $");;
           if (amount <=? 0)%float then
             print "Amount must be positive." [];;
             py_return
           else
             get_db_connection;;
             execute (Query.add_to_wallet_balance amount (user_id user));;
             ts <- now;;
             execute (Sql.insert_transaction_log (user_id user) amount ADD_FUNDS
                        ts None);;
             commit;;
             print "${amount:.2f} successfully added." [Real amount];;
             view_balance user)
          (fun ex =>
             match ex with
             | ValueError =>
                 Some (print "Invalid amount. Please enter a number." [])
             | _ =>
                 Some (print "An error occurred: {e}" [Exc ex];;
                       rollback)
             end))
       close)
    tt.

(** *** [create_stop] *)

Definition create_stop : IO unit :=
  call
    (print "\n--- Create New Stop ---" [];;
     name <- strip (input "Enter new stop name: ");;
     match name with
     | EmptyString =>
         print "Name cannot be empty." [];;
         py_return
     | _ =>
         get_db_connection;;
         try_finally
           (try_except
              (execute (Query.insert_stop name);;
               commit;;
               print "Success: Stop '{name}' created." [Str name])
              (fun ex =>
                 match ex with
                 | Exn IntegrityError =>
                     Some (print "Error: Stop name '{name}' already exists."
                             [Str name])
                 | _ =>
                     Some (print "An error occurred: {e}" [Exc ex];;
                           rollback)
                 end))
           close
     end)
    tt.

(** *** [create_shuttle] *)

Definition create_shuttle : IO unit :=
  call
    (print "\n--- Create New Shuttle ---" [];;
     try_except
       (name <- strip (input "Enter shuttle name (e.g., 'Shuttle #2'): ");;
        capacity <- int (input "Enter shuttle capacity: ");;
        match name with
        | EmptyString =>
            print "Name cannot be empty." [];;
            py_return
        | _ =>
            get_db_connection;;
            execute_with [capacity] (Query.insert_shuttle name capacity);;
            commit;;
            close;;
            print "Success: Shuttle '{name}' created with capacity {capacity}."
              [Str name; Int capacity]
        end)
       (fun ex =>
          match ex with
          | ValueError => Some (print "Error: Capacity must be an integer." [])
          | _ => Some (print "An error occurred: {e}" [Exc ex])
          end))
    tt.

(** *** [create_route] *)

(** [try: x = first; rest / except ...]: the handlers read the local [x],
    which is bound only once [first] has ended. *)
Definition try_except_after {A} (first : IO A) (rest : A -> IO unit)
    (handlers : option A -> exception -> option (IO unit)) : IO unit :=
  fun s w =>
    match first s w with
    | (Done a, w') =>
        match rest a s w' with
        | (Raise ex, w'') =>
            match handlers (Some a) ex with
            | Some h => h s w''
            | None => (Raise ex, w'')
            end
        | r => r
        end
    | (Return, w') => (Return, w')
    | (Raise ex, w') =>
        match handlers None ex with
        | Some h => h s w'
        | None => (Raise ex, w')
        end
    | (Unfinished, w') => (Unfinished, w')
    end.

Definition create_route : IO unit :=
  call
    (print "\n--- Create New Route ---" [];;
     try_except_after
       (strip (input "Enter new route name (e.g., 'Express Library'): "))
       (fun name =>
          base_fare <- float (input "Enter base fare (e.g., 0.75): $");;
          price_per_km <- float (input "Enter price per km (e.g., 0.30): $");;
          match name with
          | EmptyString =>
              print "Name cannot be empty." [];;
              py_return
          | _ =>
              get_db_connection;;
              execute (Query.insert_route name base_fare price_per_km);;
              commit;;
              close;;
              print "Success: Route '{name}' created." [Str name]
          end)
       (fun name ex =>
          match ex with
          | ValueError => Some (print "Error: Fares must be numbers." [])
          | Exn IntegrityError =>
              Some (match name with
                    | Some name =>
                        print "Error: Route name '{name}' already exists."
                          [Str name]
                    | None => raise UnboundLocalError
                    end)
          | _ => Some (print "An error occurred: {e}" [Exc ex])
          end))
    tt.

(** *** [add_stop_to_route] *)

Definition add_stop_to_route : IO unit :=
  call
    (print "\n--- Add Stop to Route ---" [];;
     get_db_connection;;
     try_finally
       (try_except
          (routes <- fetch routes;;
           print "Available Routes:" [];;
           for_each routes
             (fun r => print "  ID {r['id']}: {r['name']}"
                         [Int (route_id r); Str (route_name r)]);;
           route_id <- int (input "Enter Route ID to modify: ");;
           stops <- fetch stops;;
           print "\nAvailable Stops:" [];;
           for_each stops
             (fun s => print "  ID {s['id']}: {s['name']}"
                         [Int (stop_row_id s); Str (stop_name s)]);;
           stop_id <- int (input "Enter Stop ID to add: ");;
           stop_order <- int (input "Enter stop order (e.g., 1, 2, 3...): ");;
           distance_from_start <-
             float (input "Enter distance from start (in km): ");;
           execute_with [route_id; stop_id; stop_order]
             (Query.insert_route_stop route_id stop_id stop_order
                distance_from_start);;
           commit;;
           print "Success: Stop added to route." [])
          (fun ex =>
             match ex with
             | ValueError =>
                 Some (print "Error: IDs and order must be integers, distance must be a number."
                         [])
             | _ =>
                 Some (print "An error occurred: {e}" [Exc ex];;
                       rollback)
             end))
       close)
    tt.

(** *** [adjust_user_balance] *)

Definition adjust_user_balance : IO unit :=
  call
    (print "\n--- Adjust User Balance ---" [];;
     try_finally
       (try_except
          (username <- strip (input "Enter username of the user to adjust: ");;
           amount <-
             float (input "Enter amount to add (use negative for removal): $");;
           reason <- strip (input "Enter reason for adjustment (e.g., 'Refund'): ");;
           get_db_connection;;
           user <- fetch (Sql.user_by_username username);;
           match user with
           | None =>
               print "Error: User '{username}' not found." [Str username];;
               close;;
               py_return
           | Some user =>
               execute (Query.add_to_wallet_balance amount (user_id user));;
               ts <- now;;
               execute (Sql.insert_transaction_log (user_id user) amount
                          ADMIN_ADJUSTMENT ts None);;
               commit;;
               print "Success: User '{username}'s balance adjusted by ${amount:.2f}."
                 [Str username; Real amount]
           end)
          (fun ex =>
             match ex with
             | ValueError => Some (print "Error: Amount must be a number." [])
             | _ =>
                 Some (print "An error occurred: {e}" [Exc ex];;
                       rollback)
             end))
       close)
    tt.

(** *** [start_driver_session] *)

(** The [while True] loop of a session, for at most [turns] turns. *)
Fixpoint driving (turns : nat) (all_stops : list Query.session_stop)
    (shuttle_id : Z) (current_stop_index : Z) : IO unit :=
  match turns with
  | O => fun _ w => (Unfinished, w)
  | S turns =>
      let total_stops := Z.of_nat (List.length all_stops) in
      current_stop <- index all_stops current_stop_index;;
      print "\n========================================" [];;
      print "  Current Stop: ({current_stop['stop_order']}/{total_stops}) {current_stop['name']}"
        [Int (Query.ss_stop_order current_stop); Int total_stops;
         Str (Query.ss_name current_stop)];;
      print "========================================" [];;
      print "Commands: [next] stop, [tap] rider, [end] session" [];;
      cmd <- lower (strip (input "Enter command: "));;
      if String.eqb cmd "next" then
        let current_stop_index := (current_stop_index + 1) mod total_stops in
        print "Moving to next stop..." [];;
        driving turns all_stops shuttle_id current_stop_index
      else if String.eqb cmd "tap" then
        rider_username <- strip (input "  Enter rider username to tap: ");;
        match rider_username with
        | EmptyString => ret tt
        | _ =>
            engine (fun e => process_rider_tap e rider_username
                               (Query.ss_id current_stop) shuttle_id)
        end;;
        driving turns all_stops shuttle_id current_stop_index
      else if String.eqb cmd "end" then
        engine (fun e => handle_end_of_shift e shuttle_id);;
        print "Ending driving session..." []
      else
        print "Invalid command." [];;
        driving turns all_stops shuttle_id current_stop_index
  end.

(** The lines still to be typed: every turn of the loop reads one at
    least, so the loop takes no more turns than there are lines, and one
    more to meet the end of the input. *)
Definition lines_left : IO nat :=
  fun _ w => (Done (List.length (keyboard w)), w).

Definition start_driver_session (driver_user : user) : IO unit :=
  call
    (get_db_connection;;
     try_except
       (shuttles <- fetch shuttles;;
        print "\n--- Select Your Shuttle ---" [];;
        for_each shuttles
          (fun s => print "{s['id']}: {s['name']} (Capacity: {s['capacity']})"
                      [Int (shuttle_row_id s); Str (shuttle_name s);
                       Int (capacity s)]);;
        shuttle_id <- int (input "Enter shuttle ID: ");;
        shuttle <- fetch_with [shuttle_id] (Query.shuttle_by_id shuttle_id);;
        match shuttle with
        | None =>
            print "Invalid shuttle ID." [];;
            close;;
            py_return
        | Some shuttle =>
            routes <- fetch routes;;
            print "\n--- Select Your Route ---" [];;
            for_each routes
              (fun r =>
                 print "{r['id']}: {r['name']} (Base: ${r['base_fare']:.2f}, Per/km: ${r['price_per_km']:.2f})"
                   [Int (route_id r); Str (route_name r);
                    Real (base_fare r); Real (price_per_km r)]);;
            route_id <- int (input "Enter route ID: ");;
            all_stops <- fetch_with [route_id] (Query.stops_of_route route_id);;
            close;;
            match all_stops with
            | [] =>
                print "Error: This route has no stops defined. Returning to menu."
                  [];;
                py_return
            | first_stop :: _ =>
                print "\n--- SESSION STARTED ---" [];;
                print "Driver: {driver_user['username']}, Shuttle: {shuttle['name']}, Route: {all_stops[0]['route_name']}"
                  [Str (username driver_user); Str (shuttle_name shuttle);
                   Str (Query.ss_route_name first_stop)];;
                turns <- lines_left;;
                driving (S turns) all_stops shuttle_id 0
            end
        end)
       (fun ex =>
          match ex with
          | ValueError =>
              Some (print "Invalid ID. Returning to menu." [];;
                    close)
          | _ =>
              Some (print "An error occurred in driver session: {e}" [Exc ex];;
                    close)
          end))
    tt.

End Cli.

(** * The vocabulary of the properties *)

(** ** Fares *)

(** The fare in the order the specification writes it. *)
Definition fare (base_fare price_per_km distance_travelled : float) : float :=
  round2 (base_fare + price_per_km * distance_travelled).

(** The fare as both functions compute it between two stops of a route. *)
Definition fare_of (r : route) (a b : route_stop) : float :=
  round2 (base_fare r + abs (distance_from_start b - distance_from_start a) * price_per_km r).

(** ** The database after the writes of the engine *)

(** The database after the first write of a settlement, and after the
    first two: the balance and the amount are what the REAL columns give
    back for the [new_balance] and the [- fare] written to them. *)
Definition debited (uid : Z) (new_balance : float) (d : db) : db :=
  Sql.with_users
    (map (fun u => if user_id u =? uid
                   then Sql.set_wallet_balance (Sql.real new_balance) u else u)
       (users d)) d.

Definition logged (uid : Z) (fare : float) (ts : string) (tid : Z) (d : db) : db :=
  Sql.with_transaction_logs
    (transaction_logs d ++
       [mk_transaction_log (Sql.next_id tx_id (transaction_logs d)) uid
          (Sql.real (- fare)) RIDE_PAYMENT ts (Some tid)]) d.

(** The database after the three writes of a settlement: the balance of
    the rider, the new row of the ledger, the status of the trip. *)
Definition settled (uid : Z) (new_balance fare : float) (ts : string)
    (tid : Z) (st : TripStatus) (d : db) : db :=
  mk_db
    (map (fun u => if user_id u =? uid
                   then Sql.set_wallet_balance (Sql.real new_balance) u else u)
       (users d))
    (shuttles d) (stops d) (routes d) (route_stops d)
    (map (fun t => if trip_id t =? tid then Sql.set_status st t else t)
       (active_trips d))
    (transaction_logs d ++
       [mk_transaction_log (Sql.next_id tx_id (transaction_logs d)) uid
          (Sql.real (- fare)) RIDE_PAYMENT ts (Some tid)]).

(** The database after the INSERT of a tap-on. *)
Definition opened (uid sh rs : Z) (ts : string) (d : db) : db :=
  Sql.with_active_trips
    (active_trips d ++
       [mk_active_trip (Sql.next_id trip_id (active_trips d)) uid sh rs ts ACTIVE]) d.

(** ** Environments *)

(** An environment in which SQLite carries out every statement. *)
Definition no_faults (e : env) : Prop := forall n, fails e n = false.

Definition quiet : env :=
  mk_env (fun _ => false) (fun _ => "2025-01-01T08:00:00").

(** An environment in which SQLite fails to carry out the statement of
    rank [n] on the connection, and no other. *)
Definition failing (n : nat) : env :=
  mk_env (Nat.eqb n) (fun _ => "2025-01-01T08:00:00").

(** ** The effects of a call *)

(** Nothing in the tables of [p] stands in the way of the settlement of
    [trip]: its rider, its tap-on stop, the route of that stop and the last
    stop of that route are there, and the new balance is a number. *)
Definition settleable (p : db) (trip : active_trip) : Prop :=
  exists rider tap_on route last_stop,
    Sql.user_by_id (rider_id trip) p = Some rider /\
    Sql.route_stop_by_id (tap_on_route_stop_id trip) p = Some tap_on /\
    Sql.route_by_id (rs_route_id tap_on) p = Some route /\
    Sql.last_stop_of_route (rs_route_id tap_on) p = Some last_stop /\
    is_nan (wallet_balance rider - fare_of route tap_on last_stop) = false.

(** The effects a tap can have on the committed database, whatever the
    environment: none, a tap-off, a forced settlement followed by a tap-on,
    or a tap-on. *)
Inductive tap_effect (e : env) (name : string) (cur sh : Z) (d : db) : db -> Prop :=
| tap_nothing : tap_effect e name cur sh d d
| tap_off rider cur_stop route trip tap_on :
    Sql.user_by_username name d = Some rider ->
    Sql.route_stop_by_id cur d = Some cur_stop ->
    Sql.route_by_id (rs_route_id cur_stop) d = Some route ->
    Sql.active_trip_of_rider (user_id rider) d = Some trip ->
    Sql.route_stop_by_id (tap_on_route_stop_id trip) d = Some tap_on ->
    tap_on_route_stop_id trip <> rs_id cur_stop ->
    rs_route_id tap_on = rs_route_id cur_stop ->
    tap_effect e name cur sh d
      (settled (user_id rider)
         (wallet_balance rider - fare_of route tap_on cur_stop)
         (fare_of route tap_on cur_stop) (clock e 0) (trip_id trip) COMPLETED d)
| tap_forced_on rider cur_stop route trip tap_on last_stop old_route rider' :
    Sql.user_by_username name d = Some rider ->
    Sql.route_stop_by_id cur d = Some cur_stop ->
    Sql.route_by_id (rs_route_id cur_stop) d = Some route ->
    Sql.active_trip_of_rider (user_id rider) d = Some trip ->
    Sql.route_stop_by_id (tap_on_route_stop_id trip) d = Some tap_on ->
    tap_on_route_stop_id trip <> rs_id cur_stop ->
    rs_route_id tap_on <> rs_route_id cur_stop ->
    Sql.last_stop_of_route (rs_route_id tap_on) d = Some last_stop ->
    Sql.route_by_id (rs_route_id tap_on) d = Some old_route ->
    Sql.user_by_id (user_id rider)
      (settled (user_id rider)
         (wallet_balance rider - fare_of old_route tap_on last_stop)
         (fare_of old_route tap_on last_stop) (clock e 0) (trip_id trip)
         AUTO_COMPLETED d) = Some rider' ->
    (wallet_balance rider' <? base_fare route)%float = false ->
    tap_effect e name cur sh d
      (opened (user_id rider') sh (rs_id cur_stop) (clock e 1)
         (settled (user_id rider)
            (wallet_balance rider - fare_of old_route tap_on last_stop)
            (fare_of old_route tap_on last_stop) (clock e 0) (trip_id trip)
            AUTO_COMPLETED d))
| tap_on rider cur_stop route :
    Sql.user_by_username name d = Some rider ->
    Sql.route_stop_by_id cur d = Some cur_stop ->
    Sql.route_by_id (rs_route_id cur_stop) d = Some route ->
    Sql.active_trip_of_rider (user_id rider) d = None ->
    (wallet_balance rider <? base_fare route)%float = false ->
    tap_effect e name cur sh d
      (opened (user_id rider) sh (rs_id cur_stop) (clock e 0) d).

(** The effects one turn of the end-of-shift loop can have on the pending
    transaction, with the line it prints: nothing, when it fails before its
    first write; the debit alone, or the debit and the ledger row, when
    SQLite fails on the second or the third write; the whole settlement. *)
Inductive settle_effect (e : env) (trip : active_trip) (p : db) : db -> line -> Prop :=
| settle_none ex :
    (exists n, fails e n = true) \/ ~ settleable p trip ->
    settle_effect e trip p p (ErrorResolving (trip_id trip) ex)
| settle_debit_only rider tap_on route last_stop n :
    Sql.user_by_id (rider_id trip) p = Some rider ->
    Sql.route_stop_by_id (tap_on_route_stop_id trip) p = Some tap_on ->
    Sql.route_by_id (rs_route_id tap_on) p = Some route ->
    Sql.last_stop_of_route (rs_route_id tap_on) p = Some last_stop ->
    fails e n = true ->
    settle_effect e trip p
      (debited (user_id rider)
         (wallet_balance rider - fare_of route tap_on last_stop) p)
      (ErrorResolving (trip_id trip) OperationalError)
| settle_debit_and_log rider tap_on route last_stop ts n :
    Sql.user_by_id (rider_id trip) p = Some rider ->
    Sql.route_stop_by_id (tap_on_route_stop_id trip) p = Some tap_on ->
    Sql.route_by_id (rs_route_id tap_on) p = Some route ->
    Sql.last_stop_of_route (rs_route_id tap_on) p = Some last_stop ->
    fails e n = true ->
    is_nan (wallet_balance rider - fare_of route tap_on last_stop) = false ->
    settle_effect e trip p
      (logged (user_id rider) (fare_of route tap_on last_stop) ts (trip_id trip)
         (debited (user_id rider)
            (wallet_balance rider - fare_of route tap_on last_stop) p))
      (ErrorResolving (trip_id trip) OperationalError)
| settle_all rider tap_on route last_stop ts :
    Sql.user_by_id (rider_id trip) p = Some rider ->
    Sql.route_stop_by_id (tap_on_route_stop_id trip) p = Some tap_on ->
    Sql.route_by_id (rs_route_id tap_on) p = Some route ->
    Sql.last_stop_of_route (rs_route_id tap_on) p = Some last_stop ->
    is_nan (wallet_balance rider - fare_of route tap_on last_stop) = false ->
    settle_effect e trip p
      (settled (user_id rider)
         (wallet_balance rider - fare_of route tap_on last_stop)
         (fare_of route tap_on last_stop) ts (trip_id trip) AUTO_COMPLETED p)
      (AutoCompletedTrip (username rider) (fare_of route tap_on last_stop)).

(** The effect of the whole loop: one turn per trip, in order. *)
Inductive loop_effect (e : env) : list active_trip -> db -> db -> list line -> Prop :=
| loop_done p : loop_effect e [] p p []
| loop_turn trip trips p p1 p2 l ls :
    settle_effect e trip p p1 l ->
    loop_effect e trips p1 p2 ls ->
    loop_effect e (trip :: trips) p p2 (l :: ls).

(** What a call of [handle_end_of_shift] can leave behind. *)
Inductive shift_effect (e : env) (sh : Z) (d : db) : result -> Prop :=
| shift_select_fails :
    fails e 0 = true ->
    shift_effect e sh d (mk_result d [EndingShift] (Some OperationalError))
| shift_no_trips :
    fails e 0 = false ->
    Sql.active_trips_on_shuttle sh d = [] ->
    shift_effect e sh d (mk_result d [EndingShift; NoActiveTrips] None)
| shift_committed p ls :
    fails e 0 = false ->
    Sql.active_trips_on_shuttle sh d <> [] ->
    loop_effect e (Sql.active_trips_on_shuttle sh d) d p ls ->
    shift_effect e sh d
      (mk_result p
         (EndingShift
            :: Resolving (List.length (Sql.active_trips_on_shuttle sh d)) :: ls)
         None)
| shift_commit_fails p ls n :
    fails e 0 = false ->
    Sql.active_trips_on_shuttle sh d <> [] ->
    loop_effect e (Sql.active_trips_on_shuttle sh d) d p ls ->
    fails e n = true ->
    shift_effect e sh d
      (mk_result d
         (EndingShift
            :: Resolving (List.length (Sql.active_trips_on_shuttle sh d)) :: ls)
         (Some OperationalError)).

(** ** The ledger and the balances *)

(** The sum of the ledger rows of a rider, added in the order of the
    ledger. *)
Definition ledger_sum (rider : Z) (logs : list transaction_log) : float :=
  fold_left (fun acc en => (acc + amount en)%float)
    (filter (fun en => tx_rider_id en =? rider) logs) 0%float.

(** Every wallet balance is the sum of the ledger rows of its rider. *)
Definition balanced (d : db) : Prop :=
  forall u, In u (users d) ->
    wallet_balance u = ledger_sum (user_id u) (transaction_logs d).

(** A balance after the ledger rows [entries] of its rider are added to
    it, in order. *)
Definition apply_entries (b : float) (rider : Z) (entries : list transaction_log)
  : float :=
  fold_left (fun acc en => (acc + amount en)%float)
    (filter (fun en => tx_rider_id en =? rider) entries) b.

Definition advance (entries : list transaction_log) (u : user) : user :=
  Sql.set_wallet_balance
    (apply_entries (wallet_balance u) (user_id u) entries) u.

(** [d'] comes from [d] by appending rows to the ledger and moving every
    balance by exactly the appended rows of its rider. *)
Definition tracks (d d' : db) : Prop :=
  exists entries,
    transaction_logs d' = (transaction_logs d ++ entries)%list /\
    users d' = map (advance entries) (users d).

(** The primary key of [user]. *)
Definition user_ids_unique (d : db) : Prop := NoDup (map user_id (users d)).

(** ** Active trips *)

(** The ACTIVE trips of a rider. *)
Definition active_trips_of (rider : Z) (d : db) : list active_trip :=
  filter (Sql.is_active_of rider) (active_trips d).

(** No rider has more than one ACTIVE trip. *)
Definition one_active (d : db) : Prop :=
  forall rider, (List.length (active_trips_of rider d) <= 1)%nat.

(** ** Forced charges *)

(** A ledger row that charges [trip] the fare from its tap-on stop to the
    terminal stop of its route, at the pricing of that route, as the
    tables of [d] give them.  The terminal stop is the row the query of the
    code returns, a stop of that route of the highest [stop_order].  The
    amount is what the REAL column gives back for minus that fare: the same
    number, and the same float unless the fare is zero. *)
Definition forced_charge (d : db) (trip : active_trip) (en : transaction_log)
  : Prop :=
  exists tap_on route terminal,
    Sql.route_stop_by_id (tap_on_route_stop_id trip) d = Some tap_on /\
    Sql.route_by_id (rs_route_id tap_on) d = Some route /\
    Sql.last_stop_of_route (rs_route_id tap_on) d = Some terminal /\
    rs_route_id terminal = rs_route_id tap_on /\
    (forall s, In s (route_stops d) -> rs_route_id s = rs_route_id tap_on ->
               stop_order s <= stop_order terminal) /\
    tx_type en = RIDE_PAYMENT /\
    related_trip_id en = Some (trip_id trip) /\
    let charged :=
      fare (base_fare route) (price_per_km route)
        (abs (distance_from_start terminal - distance_from_start tap_on)) in
    amount en = Sql.real (- charged) /\
    (amount en =? - charged)%float = true.

(** The routes and their stops are the same in both databases. *)
Definition same_topology (d d' : db) : Prop :=
  routes d' = routes d /\ route_stops d' = route_stops d.

(** ** The lines of the end-of-shift loop *)


Definition reports_settlement (l : line) : Prop :=
  exists name max_fare, l = AutoCompletedTrip name max_fare.

(** [trip] is settled in [d]: every row of that id is AUTO_COMPLETED and
    the ledger has a ride payment for it. *)
Definition settled_in (trip : active_trip) (d : db) : Prop :=
  (forall t, In t (active_trips d) -> trip_id t = trip_id trip ->
             status t = AUTO_COMPLETED) /\
  (exists en, In en (transaction_logs d) /\ tx_type en = RIDE_PAYMENT /\
              related_trip_id en = Some (trip_id trip)).

(** ** Databases the properties are tried on *)

(** The seeded database after rider1 has tapped on at the Library. *)
Definition riding : db :=
  final (process_rider_tap quiet "rider1" 1 1 (seed_data empty_db)).

(** The seeded database with a second route, whose only stop (route-stop
    5) is the Student Union, after rider1 has tapped on at the Library on
    the Campus Loop. *)
Definition riding_with_route (name : string) (base_fare : float) : db :=
  final
    (process_rider_tap quiet "rider1" 1 1
       (insert_route_stop 2 4 1 0
          (insert_route name base_fare 0.25 (seed_data empty_db)))).

Definition riding_with_express : db := riding_with_route "Express" 9.5.

Definition riding_with_link : db := riding_with_route "Link" 0.75.

(** The seeded database with a second route, free of charge, from the
    Library (route-stop 5) to the Dorm Quad (route-stop 6), after rider1 has
    tapped on at the Library on that route. *)
Definition riding_free : db :=
  final
    (process_rider_tap quiet "rider1" 5 1
       (insert_route_stop 2 3 2 1.5
          (insert_route_stop 2 1 1 0
             (insert_route "Free" 0 0 (seed_data empty_db))))).

(** The seeded database after rider2 has registered, added 0.50 and tapped
    on at the Library; and the same after rider1 has tapped on there too. *)
Definition rider2_riding : db :=
  final
    (process_rider_tap quiet "rider2" 1 1
       (add_funds 4 0.5 "2025-01-01T07:00:00"
          (insert_rider "rider2" "rider2@campus.edu"
             "e85978062768502c68bfd953d2d3793cf799b6abe697543512d8bc41bc60e210"
             (seed_data empty_db)))).

Definition both_riding : db :=
  final (process_rider_tap quiet "rider1" 1 1 rider2_riding).

Definition balance_of (name : string) (d : db) : option float :=
  option_map wallet_balance (Sql.user_by_username name d).

(** ** The interactive program *)

(** The state in which a function of the program is called on the
    database [d], with the lines [typed] still to come. *)
Definition start (d : db) (typed : list string) : Cli.world :=
  Cli.mk_world d d false typed [] 0 0 0.

(** The database after the UPDATE and the INSERT of [add_funds] and of
    [adjust_user_balance]. *)
Definition credited (uid : Z) (a : float) (ty : TransactionType) (ts : string)
    (d : db) : db :=
  mk_db
    (map (fun u => if user_id u =? uid
                   then Sql.set_wallet_balance (Sql.real (wallet_balance u + a)) u
                   else u) (users d))
    (shuttles d) (stops d) (routes d) (route_stops d) (active_trips d)
    (transaction_logs d ++
       [mk_transaction_log (Sql.next_id tx_id (transaction_logs d)) uid
          (Sql.real a) ty ts None])%list.

(** What one call of a function of the program can do to the database:
    nothing, the effect of one of its statements or pairs of statements,
    or the effect of a call of the engine. *)
Inductive change (d : db) : db -> Prop :=
| change_nothing : change d d
| change_registered name mail digest d' :
    Query.insert_user name mail digest RIDER d = Some d' -> change d d'
| change_balance a id ty ts d1 d2 :
    Query.add_to_wallet_balance a id d = Some d1 ->
    Sql.insert_transaction_log id a ty ts None d1 = Some d2 ->
    change d d2
| change_stop name d' :
    Query.insert_stop name d = Some d' -> change d d'
| change_shuttle name cap d' :
    Query.insert_shuttle name cap d = Some d' -> change d d'
| change_route name base per_km d' :
    Query.insert_route name base per_km d = Some d' -> change d d'
| change_route_stop rid sid order distance d' :
    Query.insert_route_stop rid sid order distance d = Some d' -> change d d'
| change_tap e name cur sh d' :
    tap_effect e name cur sh d d' -> change d d'
| change_shift e sh r :
    shift_effect e sh d r -> change d (final r).

Inductive changes (d : db) : db -> Prop :=
| changes_none : changes d d
| changes_more d1 d2 : changes d d1 -> change d1 d2 -> changes d d2.

(** What a driver session does to the database: taps on its shuttle at
    route-stops of its route, then at most one end of shift of that
    shuttle. *)
Inductive session_effect (route sh : Z) (d0 d : db) : db -> Prop :=
| session_over : session_effect route sh d0 d d
| session_tap e name stop d1 d2 :
    In stop (route_stops d0) ->
    rs_route_id stop = route ->
    tap_effect e name (rs_id stop) sh d d1 ->
    session_effect route sh d0 d1 d2 ->
    session_effect route sh d0 d d2
| session_end e r :
    shift_effect e sh d r ->
    session_effect route sh d0 d (final r).

(** The functions a menu of the program offers. *)
Inductive operation :=
| Register
| Login
| ViewBalance (u : user)
| AddFunds (u : user)
| AdjustUserBalance
| CreateStop
| CreateShuttle
| CreateRoute
| AddStopToRoute
| DriverSession (u : user).

Definition perform (op : operation) : Cli.IO unit :=
  match op with
  | Register => Cli.register_user
  | Login => Cli.bind Cli.login_user (fun _ => Cli.ret tt)
  | ViewBalance u => Cli.view_balance u
  | AddFunds u => Cli.add_funds u
  | AdjustUserBalance => Cli.adjust_user_balance
  | CreateStop => Cli.create_stop
  | CreateShuttle => Cli.create_shuttle
  | CreateRoute => Cli.create_route
  | AddStopToRoute => Cli.add_stop_to_route
  | DriverSession u => Cli.start_driver_session u
  end.

(** What identifies a user and what it may do. *)
Definition account (u : user) : Z * string * string * string * UserRole :=
  (user_id u, username u, email u, password_hash u, role u).

(** Every account of [d] is in [d'], in the same place and unchanged, and
    the accounts [d'] has besides are riders. *)
Definition keeps_accounts (d d' : db) : Prop :=
  exists new,
    map account (users d') = (map account (users d) ++ new)%list /\
    Forall (fun a => snd a = RIDER) new.

(** ** A library to try the properties with *)

(** SHA-256 (FIPS 180-4) on the bytes of a string, as a lower-case
    hexadecimal digest. *)
Module Sha256.

Definition w32 (x : Z) : Z := x mod 2 ^ 32.

Definition rotr (n x : Z) : Z :=
  Z.lor (Z.shiftr x n) (w32 (Z.shiftl x (32 - n))).

Definition ch (x y z : Z) : Z :=
  Z.lxor (Z.land x y) (Z.land (Z.lxor x 0xffffffff) z).

Definition maj (x y z : Z) : Z :=
  Z.lxor (Z.lxor (Z.land x y) (Z.land x z)) (Z.land y z).

Definition big_sigma0 (x : Z) : Z :=
  Z.lxor (Z.lxor (rotr 2 x) (rotr 13 x)) (rotr 22 x).

Definition big_sigma1 (x : Z) : Z :=
  Z.lxor (Z.lxor (rotr 6 x) (rotr 11 x)) (rotr 25 x).

Definition small_sigma0 (x : Z) : Z :=
  Z.lxor (Z.lxor (rotr 7 x) (rotr 18 x)) (Z.shiftr x 3).

Definition small_sigma1 (x : Z) : Z :=
  Z.lxor (Z.lxor (rotr 17 x) (rotr 19 x)) (Z.shiftr x 10).

(** The constants of the standard are the first 32 bits of the fractional
    parts of the cube roots (for the rounds) and of the square roots (for
    the initial hash) of the first primes. *)
Definition is_prime (n : Z) : bool :=
  (1 <? n) &&
  forallb (fun k => negb (n mod Z.of_nat k =? 0)) (seq 2 (Z.to_nat n - 2)).

Definition primes (n : nat) : list Z :=
  firstn n (filter is_prime (map Z.of_nat (seq 2 310))).

(** The largest [r] below [2 ^ bits] whose cube is at most [n]. *)
Fixpoint cube_root (bits : nat) (n r : Z) : Z :=
  match bits with
  | O => r
  | S b =>
      let c := r + 2 ^ Z.of_nat b in
      cube_root b n (if c * c * c <=? n then c else r)
  end.

Definition round_constants : list Z :=
  map (fun p => w32 (cube_root 36 (p * 2 ^ 96) 0)) (primes 64).

Definition initial_hash : list Z :=
  map (fun p => w32 (Z.sqrt (p * 2 ^ 64))) (primes 8).

Definition bytes_of (s : string) : list Z :=
  map (fun c => Z.of_N (N_of_ascii c)) (list_ascii_of_string s).

(** The [n] low bytes of [x], the highest first. *)
Fixpoint big_endian (n : nat) (x : Z) : list Z :=
  match n with
  | O => []
  | S n' => (Z.shiftr x (8 * Z.of_nat n') mod 256) :: big_endian n' x
  end.

Definition pad (m : list Z) : list Z :=
  let l := Z.of_nat (List.length m) in
  (m ++ [0x80] ++ repeat 0 (Z.to_nat ((55 - l) mod 64)) ++ big_endian 8 (8 * l))%list.

Fixpoint words (b : list Z) : list Z :=
  match b with
  | b0 :: b1 :: b2 :: b3 :: r =>
      (b0 * 2 ^ 24 + b1 * 2 ^ 16 + b2 * 2 ^ 8 + b3) :: words r
  | _ => []
  end.

(** The message schedule, the latest word first. *)
Fixpoint schedule (n : nat) (w : list Z) : list Z :=
  match n with
  | O => w
  | S n' =>
      schedule n'
        (w32 (small_sigma1 (nth 1 w 0) + nth 6 w 0
              + small_sigma0 (nth 14 w 0) + nth 15 w 0) :: w)
  end.

Definition step (h : list Z) (kw : Z * Z) : list Z :=
  match h with
  | [a; b; c; d; e; f; g; i] =>
      let t1 := i + big_sigma1 e + ch e f g + fst kw + snd kw in
      let t2 := big_sigma0 a + maj a b c in
      [w32 (t1 + t2); a; b; c; w32 (d + t1); e; f; g]
  | _ => h
  end.

Definition compress (h : list Z) (block : list Z) : list Z :=
  let w := rev (schedule 48 (rev block)) in
  map (fun p => w32 (fst p + snd p))
    (combine h (fold_left step (combine round_constants w) h)).

Fixpoint blocks (n : nat) (h : list Z) (w : list Z) : list Z :=
  match n with
  | O => h
  | S n' => blocks n' (compress h (firstn 16 w)) (skipn 16 w)
  end.

Definition hex_digit (x : Z) : string :=
  String.substring (Z.to_nat x) 1 "0123456789abcdef".

Definition hex_word (x : Z) : string :=
  fold_right String.append EmptyString
    (map (fun i => hex_digit (Z.shiftr x (4 * i) mod 16)) [7; 6; 5; 4; 3; 2; 1; 0]).

Definition hexdigest (s : string) : string :=
  let w := words (pad (bytes_of s)) in
  fold_right String.append EmptyString
    (map hex_word (blocks (List.length w / 16) initial_hash w)).

End Sha256.

(** Text as Python reads it, for text typed in ASCII. *)
Module Text.

Definition is_space (c : ascii) : bool :=
  let n := N_of_ascii c in
  ((9 <=? n) && (n <=? 13) || (28 <=? n) && (n <=? 32))%N.

Fixpoint lstrip (s : string) : string :=
  match s with
  | String c s' => if is_space c then lstrip s' else s
  | EmptyString => EmptyString
  end.

Fixpoint rstrip (s : string) : string :=
  match s with
  | String c s' =>
      match rstrip s' with
      | EmptyString => if is_space c then EmptyString else String c EmptyString
      | r => String c r
      end
  | EmptyString => EmptyString
  end.

Definition strip (s : string) : string := rstrip (lstrip s).

Definition lower_char (c : ascii) : ascii :=
  let n := N_of_ascii c in
  if ((65 <=? n) && (n <=? 90))%N then ascii_of_N (n + 32) else c.

Fixpoint lower (s : string) : string :=
  match s with
  | String c s' => String (lower_char c) (lower s')
  | EmptyString => EmptyString
  end.

Definition digit (c : ascii) : option Z :=
  let n := N_of_ascii c in
  if ((48 <=? n) && (n <=? 57))%N then Some (Z.of_N n - 48) else None.

(** The number written by a run of decimal digits, after [acc]. *)
Fixpoint digits (acc : Z) (s : string) : option Z :=
  match s with
  | String c s' =>
      match digit c with
      | Some v => digits (10 * acc + v) s'
      | None => None
      end
  | EmptyString => Some acc
  end.

Definition unsigned (s : string) : option Z :=
  match s with
  | EmptyString => None
  | _ => digits 0 s
  end.

(** [int(s)] for a plain numeral: an optional sign and decimal digits,
    with white space around; anything else is refused. *)
Definition int (s : string) : option Z :=
  match strip s with
  | String "-" r => option_map Z.opp (unsigned r)
  | String "+" r => unsigned r
  | r => unsigned r
  end.

(** The digits before and after the point of a numeral, and the number
    of those after it. *)
Fixpoint decimal (acc : Z) (places : option Z) (s : string) : option (Z * Z) :=
  match s with
  | String "." s' =>
      match places with
      | None => decimal acc (Some 0) s'
      | Some _ => None
      end
  | String c s' =>
      match digit c with
      | Some v => decimal (10 * acc + v) (option_map Z.succ places) s'
      | None => None
      end
  | EmptyString =>
      Some (acc, match places with Some p => p | None => 0 end)
  end.

(** The float nearest to [n / 10 ^ p]: both are floats when [n < 2 ^ 53]
    and [p <= 22], and IEEE division rounds their quotient correctly. *)
Definition unsigned_float (s : string) : option float :=
  match s with
  | EmptyString | "." => None
  | _ =>
      match decimal 0 None s with
      | Some (n, p) =>
          if (n <? 2 ^ 53) && (p <=? 22)
          then Some (of_uint63 (of_Z n) / of_uint63 (of_Z (10 ^ p)))%float
          else None
      | None => None
      end
  end.

(** [float(s)] for a plain numeral of at most 15 digits or so: an optional
    sign, digits and at most one point; anything else is refused. *)
Definition float (s : string) : option float :=
  match strip s with
  | String "-" r => option_map PrimFloat.opp (unsigned_float r)
  | String "+" r => unsigned_float r
  | r => unsigned_float r
  end.

End Text.

Definition plain_library : Cli.library :=
  Cli.mk_library Text.float Text.int Text.strip Text.lower Sha256.hexdigest.

(** A setting in which SQLite carries out every statement, of the
    interactive functions and of the engine. *)
Definition calm : Cli.setting :=
  Cli.mk_setting plain_library (fun _ => false)
    (fun _ => "2025-01-01T09:00:00") (fun _ => quiet).

(** The rows of the seeded database. *)
Definition driver1 : user :=
  mk_user 2 "driver1" "driver1@campus.edu"
    "494d022492052a06f8f81949639a1d148c1051fa3d4e4688fbd96efe649cd382"
    DRIVER 0.

Definition rider1 : user :=
  mk_user 3 "rider1" "rider1@campus.edu"
    "e85978062768502c68bfd953d2d3793cf799b6abe697543512d8bc41bc60e210"
    RIDER 10.

(** * Facts about the embedding *)

(** ** Floats *)

Module FloatFacts.

Lemma SFsub_add_opp (prec emax : Z) (x y : spec_float) :
  SFsub prec emax x y = SFadd prec emax x (SFopp y).
Proof.
  destruct x as [sx| sx| |sx mx ex], y as [sy| sy| |sy my ey]; cbn;
    try reflexivity; destruct sx, sy; reflexivity.
Qed.

(** Subtracting is adding the opposite, exactly. *)
Lemma sub_add_opp (a b : float) : (a - b = a + (- b))%float.
Proof.
  apply Prim2SF_inj. rewrite FloatAxioms.sub_spec, FloatAxioms.add_spec, FloatAxioms.opp_spec.
  apply SFsub_add_opp.
Qed.

Lemma SFmul_comm (prec emax : Z) (x y : spec_float) :
  SFmul prec emax x y = SFmul prec emax y x.
Proof.
  destruct x as [sx| sx| |sx mx ex], y as [sy| sy| |sy my ey]; cbn;
    try reflexivity; rewrite ?(xorb_comm sx sy); try reflexivity.
  now rewrite Pos.mul_comm, Z.add_comm.
Qed.

Lemma mul_comm (a b : float) : (a * b = b * a)%float.
Proof. apply Prim2SF_inj. rewrite !FloatAxioms.mul_spec. apply SFmul_comm. Qed.

Lemma SFcompare_antisym (x y : spec_float) (c : comparison) :
  SFcompare x y = Some c -> SFcompare y x = Some (CompOpp c).
Proof.
  destruct x as [sx| sx| |sx mx ex], y as [sy| sy| |sy my ey]; cbn;
    try discriminate; intros H; inversion H; clear H; subst;
    try (destruct sx; try destruct sy; reflexivity);
    try (destruct sy; reflexivity).
  pose proof (Pos.compare_cont_antisym mx my Eq) as P. cbn in P.
  destruct sx, sy; cbn; try reflexivity;
    rewrite (Z.compare_antisym ex ey); destruct (ex ?= ey); cbn;
    try reflexivity; congruence.
Qed.

(** [b <= a] excludes [a < b]. *)
Lemma leb_not_ltb (a b : float) :
  (b <=? a)%float = true -> (a <? b)%float = false.
Proof.
  rewrite FloatAxioms.leb_spec, FloatAxioms.ltb_spec. unfold SFleb, SFltb.
  destruct (SFcompare (Prim2SF b) (Prim2SF a)) as [c|] eqn:E; [|discriminate].
  rewrite (SFcompare_antisym _ _ _ E). destruct c; cbn; congruence.
Qed.

Lemma SFcompare_refl (x : spec_float) :
  x <> S754_nan -> SFcompare x x = Some Eq.
Proof.
  destruct x as [s|s| |s m e]; cbn; intros H; try congruence;
    try (destruct s; reflexivity).
  pose proof (Pos.compare_cont_refl m Eq) as P. cbn in P.
  destruct s; rewrite Z.compare_refl; cbn;
    change (PosDef.Pos.compare_cont Eq m m) with (Pos.compare_cont Eq m m);
    rewrite P; reflexivity.
Qed.

(** A float is NaN exactly when its specification is. *)
Lemma is_nan_spec (x : float) : is_nan x = true <-> Prim2SF x = S754_nan.
Proof.
  unfold is_nan. rewrite FloatAxioms.eqb_spec. unfold SFeqb. split.
  - destruct (Prim2SF x) eqn:E; try reflexivity; intros H;
      rewrite SFcompare_refl in H by congruence; discriminate.
  - intros ->. reflexivity.
Qed.

(** When [a - b] is a number, so is [- b]. *)
Lemma is_nan_sub_opp (a b : float) :
  is_nan (a - b) = false -> is_nan (- b) = false.
Proof.
  intros H. destruct (is_nan (- b)) eqn:E; [|reflexivity].
  apply is_nan_spec in E. rewrite FloatAxioms.opp_spec in E.
  assert (Prim2SF b = S754_nan) as B by (destruct (Prim2SF b); cbn in E; congruence).
  assert (is_nan (a - b) = true) as N.
  { apply is_nan_spec. rewrite FloatAxioms.sub_spec, B.
    destruct (Prim2SF a); reflexivity. }
  congruence.
Qed.

(** *** The sign of zero

    The sum of two floats is -0.0 only when both are: a sum of two finite
    floats that is not exact zero is rounded from a mantissa that does not
    vanish, since no exponent is below the least one of the format. *)

Lemma digits2_pos_bound (m : positive) :
  2 ^ (Z.pos (digits2_pos m) - 1) <= Z.pos m.
Proof.
  induction m as [m IH|m IH|]; cbn [digits2_pos].
  - rewrite Pos2Z.inj_succ. replace (Z.succ (Z.pos (digits2_pos m)) - 1)
      with (Z.succ (Z.pos (digits2_pos m) - 1)) by lia.
    rewrite Z.pow_succ_r by lia. lia.
  - rewrite Pos2Z.inj_succ. replace (Z.succ (Z.pos (digits2_pos m)) - 1)
      with (Z.succ (Z.pos (digits2_pos m) - 1)) by lia.
    rewrite Z.pow_succ_r by lia. lia.
  - cbn. lia.
Qed.

Lemma shr_1_m (r : shr_record) :
  0 <= shr_m r -> shr_m (shr_1 r) = shr_m r / 2.
Proof.
  destruct r as [m r s]. cbn [shr_m]. intros H.
  destruct m as [|p|p]; [reflexivity| |lia].
  destruct p as [p|p|]; cbn [shr_1 shr_m].
  - rewrite Pos2Z.inj_xI. apply Z.div_unique with (r := 1); lia.
  - rewrite Pos2Z.inj_xO. apply Z.div_unique with (r := 0); lia.
  - reflexivity.
Qed.

Lemma iter_shr_1_m (p : positive) (r : shr_record) :
  0 <= shr_m r -> shr_m (iter_pos shr_1 p r) = shr_m r / 2 ^ Z.pos p.
Proof.
  revert r. induction p as [p IH|p IH|]; intros r H; cbn [iter_pos].
  - assert (0 <= shr_m (shr_1 r)) as H1
      by (rewrite shr_1_m by exact H; apply Z.div_pos; lia).
    assert (0 <= shr_m (iter_pos shr_1 p (shr_1 r))) as H2
      by (rewrite IH by exact H1; apply Z.div_pos; lia).
    rewrite IH by exact H2. rewrite IH by exact H1. rewrite shr_1_m by exact H.
    rewrite !Z.div_div by lia. f_equal.
    replace (Z.pos p~1) with (1 + Z.pos p + Z.pos p) by lia.
    rewrite !Z.pow_add_r by lia. lia.
  - assert (0 <= shr_m (iter_pos shr_1 p r)) as H2
      by (rewrite IH by exact H; apply Z.div_pos; lia).
    rewrite IH by exact H2. rewrite IH by exact H.
    rewrite Z.div_div by lia. f_equal.
    replace (Z.pos p~0) with (Z.pos p + Z.pos p) by lia.
    rewrite Z.pow_add_r by lia. lia.
  - rewrite shr_1_m by exact H. reflexivity.
Qed.

(** Shifting a positive mantissa into the format leaves it positive. *)
Lemma shr_fexp_pos (m : positive) (e : Z) (l : location) :
  SpecFloat.emin prec emax <= e ->
  0 < shr_m (fst (shr_fexp prec emax (Z.pos m) e l)) /\
  SpecFloat.emin prec emax <= snd (shr_fexp prec emax (Z.pos m) e l).
Proof.
  intros He. unfold shr_fexp, shr. cbn [Zdigits2].
  assert (shr_m (shr_record_of_loc (Z.pos m) l) = Z.pos m) as Hm
    by (destruct l as [|[]]; reflexivity).
  destruct (SpecFloat.fexp prec emax (Z.pos (digits2_pos m) + e) - e) as [|p|p] eqn:En;
    cbn [fst snd]; try (rewrite Hm; split; lia).
  split; [|lia].
  rewrite iter_shr_1_m by (rewrite Hm; lia). rewrite Hm.
  unfold SpecFloat.fexp, SpecFloat.emin in *.
  assert (Z.pos p = Z.pos (digits2_pos m) - prec) as Hp by lia.
  pose proof (digits2_pos_bound m) as B.
  apply Z.div_str_pos. split; [apply Z.pow_pos_nonneg; lia|].
  eapply Z.le_trans; [|exact B]. apply Z.pow_le_mono_r; [lia|].
  rewrite Hp. unfold prec. lia.
Qed.

Lemma round_nearest_even_pos (m : Z) (l : location) :
  0 < m -> 0 < round_nearest_even m l.
Proof.
  intros H. destruct l as [|[]]; cbn; try lia. destruct (Z.even m); lia.
Qed.

Lemma binary_round_aux_not_zero (s s' : bool) (m : positive) (e : Z) (l : location) :
  SpecFloat.emin prec emax <= e ->
  binary_round_aux prec emax s (Z.pos m) e l <> S754_zero s'.
Proof.
  intros He. unfold binary_round_aux.
  destruct (shr_fexp_pos m e l He) as [H1 H2].
  destruct (shr_fexp prec emax (Z.pos m) e l) as [mrs' e'] eqn:E1. cbn [fst snd] in *.
  pose proof (round_nearest_even_pos (shr_m mrs') (loc_of_shr_record mrs') H1) as H3.
  destruct (round_nearest_even (shr_m mrs') (loc_of_shr_record mrs')) as [|q|q];
    try lia.
  destruct (shr_fexp_pos q e' loc_Exact H2) as [H4 H5].
  destruct (shr_fexp prec emax (Z.pos q) e' loc_Exact) as [mrs'' e''] eqn:E2.
  cbn [fst snd] in *.
  destruct (shr_m mrs'') as [|r|r]; try lia.
  destruct (e'' <=? emax - prec); discriminate.
Qed.

Lemma binary_round_not_zero (s s' : bool) (m : positive) (e : Z) :
  SpecFloat.emin prec emax <= e ->
  binary_round prec emax s m e <> S754_zero s'.
Proof.
  intros He. unfold binary_round, shl_align.
  destruct (SpecFloat.fexp prec emax (Z.pos (digits2_pos m) + e) - e) as [|p|p] eqn:En;
    apply binary_round_aux_not_zero; try exact He.
  unfold SpecFloat.fexp, SpecFloat.emin in *. lia.
Qed.

Lemma valid_exponent (s : bool) (m : positive) (e : Z) :
  valid_binary (S754_finite s m e) = true -> SpecFloat.emin prec emax <= e.
Proof.
  unfold valid_binary, SpecFloat.valid_binary, bounded, canonical_mantissa,
    SpecFloat.fexp, SpecFloat.emin. intros H.
  apply andb_prop in H. destruct H as [H _]. apply Z.eqb_eq in H. lia.
Qed.

Lemma SFadd_not_neg_zero (x y : spec_float) :
  valid_binary x = true -> valid_binary y = true ->
  SFadd prec emax x y = S754_zero true -> x = S754_zero true /\ y = S754_zero true.
Proof.
  intros Vx Vy.
  destruct x as [sx|sx| |sx mx ex], y as [sy|sy| |sy my ey]; cbn [SFadd];
    try discriminate; try (destruct sx, sy; discriminate).
  - destruct sx, sy; try discriminate. auto.
  - intros H. exfalso. revert H. unfold binary_normalize.
    pose proof (valid_exponent _ _ _ Vx). pose proof (valid_exponent _ _ _ Vy).
    destruct (_ + _) as [|p|p]; [discriminate| |];
      apply binary_round_not_zero; lia.
Qed.

Lemma Prim2SF_zero (x : float) :
  (x =? 0)%float = true <-> exists s, Prim2SF x = S754_zero s.
Proof.
  rewrite FloatAxioms.eqb_spec. change (Prim2SF 0) with (S754_zero false).
  destruct (Prim2SF x) as [s|s| |s m e]; cbn; split;
    try discriminate; try (intros [s' H]; discriminate); eauto.
  - destruct s; discriminate.
  - destruct s; discriminate.
Qed.

(** What [Sql.real] does to the number underneath. *)
Lemma Prim2SF_real (x : float) :
  Prim2SF (Sql.real x) =
  match Prim2SF x with S754_zero _ => S754_zero false | f => f end.
Proof.
  unfold Sql.real. destruct (x =? 0)%float eqn:E.
  - apply Prim2SF_zero in E. destruct E as [s ->]. reflexivity.
  - destruct (Prim2SF x) as [s|s| |s m e] eqn:P; try reflexivity.
    assert ((x =? 0)%float = true) by (apply Prim2SF_zero; eauto). congruence.
Qed.

Lemma real_add (b a : float) : Sql.real (b + a) = (b + Sql.real a)%float.
Proof.
  apply Prim2SF_inj. rewrite Prim2SF_real, !FloatAxioms.add_spec, Prim2SF_real.
  unfold SF64add.
  pose proof (Prim2SF_valid b) as Vb. pose proof (Prim2SF_valid a) as Va.
  destruct (Prim2SF a) as [sa|sa| |sa ma ea] eqn:Pa.
  - destruct (Prim2SF b) as [sb|sb| |sb mb eb]; try reflexivity.
    destruct sb, sa; reflexivity.
  - destruct (SFadd prec emax (Prim2SF b) (S754_infinity sa)) as [[]| | |] eqn:E;
      try reflexivity.
    apply SFadd_not_neg_zero in E; [destruct E; discriminate|exact Vb|exact Va].
  - destruct (Prim2SF b); reflexivity.
  - destruct (SFadd prec emax (Prim2SF b) (S754_finite sa ma ea)) as [[]| | |] eqn:E;
      try reflexivity.
    + apply SFadd_not_neg_zero in E; [destruct E; discriminate|exact Vb|exact Va].
Qed.

(** Subtracting and then storing: the balance after a debit is the balance
    before it plus the amount the ledger keeps. *)
Lemma real_sub (b f : float) : Sql.real (b - f) = (b + Sql.real (- f))%float.
Proof. rewrite sub_add_opp. apply real_add. Qed.

(** A number that is not zero is read back as written. *)
Lemma real_of_nonzero (x : float) : (x =? 0)%float = false -> Sql.real x = x.
Proof. unfold Sql.real. now intros ->. Qed.

(** What is read back is the number that was written. *)
Lemma real_eqb (x : float) : is_nan x = false -> (Sql.real x =? x)%float = true.
Proof.
  intros N. rewrite FloatAxioms.eqb_spec, Prim2SF_real. unfold SFeqb.
  destruct (Prim2SF x) as [s|s| |s m e] eqn:P.
  - reflexivity.
  - destruct s; reflexivity.
  - assert (is_nan x = true) by (now apply is_nan_spec). congruence.
  - rewrite SFcompare_refl by discriminate. reflexivity.
Qed.

Lemma is_nan_real (x : float) : is_nan (Sql.real x) = is_nan x.
Proof.
  unfold Sql.real. destruct (x =? 0)%float eqn:E; [|reflexivity].
  destruct (is_nan x) eqn:N; [|reflexivity].
  apply is_nan_spec in N. apply Prim2SF_zero in E. destruct E as [s E]. congruence.
Qed.

(** An amount above zero is not zero. *)
Lemma above_zero_nonzero (a : float) :
  (a <=? 0)%float = false -> (a =? 0)%float = false.
Proof.
  rewrite FloatAxioms.leb_spec, FloatAxioms.eqb_spec. unfold SFleb, SFeqb.
  destruct (SFcompare (Prim2SF a) (Prim2SF 0)) as [[]|]; congruence.
Qed.


(** Adding an amount that is not zero gives a float that is read back as
    written. *)
Lemma real_add_nonzero (b a : float) :
  (a =? 0)%float = false -> Sql.real (b + a) = (b + a)%float.
Proof. intros H. now rewrite real_add, (real_of_nonzero a H). Qed.

End FloatFacts.

(** ** Lookups *)

Lemma user_by_id_some (id : Z) (d : db) (u : user) :
  Sql.user_by_id id d = Some u -> In u (users d) /\ user_id u = id.
Proof.
  intros H. apply find_some in H. destruct H as [H1 H2].
  apply Z.eqb_eq in H2. now split.
Qed.

Lemma user_by_username_some (name : string) (d : db) (u : user) :
  Sql.user_by_username name d = Some u -> In u (users d) /\ username u = name.
Proof.
  intros H. apply find_some in H. destruct H as [H1 H2].
  apply String.eqb_eq in H2. now split.
Qed.

Lemma route_stop_by_id_some (id : Z) (d : db) (s : route_stop) :
  Sql.route_stop_by_id id d = Some s -> In s (route_stops d) /\ rs_id s = id.
Proof.
  intros H. apply find_some in H. destruct H as [H1 H2].
  apply Z.eqb_eq in H2. now split.
Qed.

(** The UPDATE of the balance of a row that is there. *)
Lemma update_wallet_balance_of_row (b : float) (u : user) (d : db) :
  In u (users d) ->
  Sql.update_wallet_balance b (user_id u) d =
  if is_nan b then None
  else Some (Sql.with_users
               (map (fun u' => if user_id u' =? user_id u
                               then Sql.set_wallet_balance (Sql.real b) u' else u')
                  (users d)) d).
Proof.
  intros Hin. unfold Sql.update_wallet_balance.
  assert (existsb (fun u' => user_id u' =? user_id u) (users d) = true) as E.
  { apply existsb_exists. exists u. split; [exact Hin | apply Z.eqb_refl]. }
  rewrite E, andb_true_r. reflexivity.
Qed.

Lemma find_none_filter {A : Type} (p : A -> bool) (l : list A) :
  find p l = None -> filter p l = [].
Proof.
  induction l as [|a l IH]; cbn; [reflexivity|].
  destruct (p a); [discriminate | exact IH].
Qed.

Lemma find_some_filter {A : Type} (p : A -> bool) (l : list A) (x : A) :
  find p l = Some x -> (List.length (filter p l) <= 1)%nat -> filter p l = [x].
Proof.
  induction l as [|a l IH]; cbn; [discriminate|].
  destruct (p a) eqn:E.
  - intros [= ->] H. cbn in H. destruct (filter p l); [reflexivity | cbn in H; lia].
  - exact IH.
Qed.

Lemma find_map_other {A : Type} (p : A -> bool) (f : A -> A) (l : list A) :
  (forall x, p (f x) = p x) -> (forall x, p x = true -> f x = x) ->
  find p (map f l) = find p l.
Proof.
  intros H1 H2. induction l as [|a l IH]; cbn; [reflexivity|].
  rewrite H1. destruct (p a) eqn:E; [now rewrite H2 | exact IH].
Qed.

Lemma filter_map_length {A : Type} (p : A -> bool) (f : A -> A) (l : list A) :
  (forall x, p (f x) = true -> p x = true) ->
  (List.length (filter p (map f l)) <= List.length (filter p l))%nat.
Proof.
  intros H. induction l as [|a l IH]; cbn; [lia|].
  destruct (p (f a)) eqn:E.
  - rewrite (H a E). cbn. lia.
  - destruct (p a); cbn; lia.
Qed.

Lemma NoDup_map_same {A B : Type} (f : A -> B) (l : list A) (x y : A) :
  NoDup (map f l) -> In x l -> In y l -> f x = f y -> x = y.
Proof.
  induction l as [|a l IH]; cbn; intros N Hx Hy E; [contradiction|].
  inversion N as [|? ? Hn N']; subst.
  destruct Hx as [<-|Hx], Hy as [<-|Hy]; trivial.
  - exfalso. apply Hn. rewrite E. now apply in_map.
  - exfalso. apply Hn. rewrite <- E. now apply in_map.
  - now apply IH.
Qed.

Lemma highest_order_fold (l : list route_stop) (acc : option route_stop) :
  match fold_left Sql.highest_order l acc with
  | Some t =>
      (In t l \/ acc = Some t) /\
      (forall s, In s l -> stop_order s <= stop_order t) /\
      (forall b, acc = Some b -> stop_order b <= stop_order t)
  | None => l = [] /\ acc = None
  end.
Proof.
  revert acc. induction l as [|a l IH]; intros acc; cbn [fold_left].
  - destruct acc as [b|]; [|now split].
    split; [now right|]. split; [intros s []|]. intros b' [= ->]. lia.
  - specialize (IH (Sql.highest_order acc a)).
    destruct (fold_left Sql.highest_order l (Sql.highest_order acc a)) as [t|].
    + destruct IH as (Hin & Hmax & Hacc). unfold Sql.highest_order in Hin, Hacc.
      destruct acc as [b|].
      * destruct (stop_order b <? stop_order a) eqn:E.
        -- apply Z.ltb_lt in E. specialize (Hacc a eq_refl).
           split; [destruct Hin as [Hin|[= ->]]; [left; now right | left; now left]|].
           split; [intros s [<-|Hs]; [lia | now apply Hmax]|].
           intros b' [= <-]. lia.
        -- apply Z.ltb_ge in E. specialize (Hacc b eq_refl).
           split; [destruct Hin as [Hin|Hin]; [left; now right | now right]|].
           split; [intros s [<-|Hs]; [lia | now apply Hmax]|].
           intros b' [= <-]. lia.
      * specialize (Hacc a eq_refl).
        split; [destruct Hin as [Hin|[= ->]]; [left; now right | left; now left]|].
        split; [intros s [<-|Hs]; [lia | now apply Hmax]|]. discriminate.
    + destruct IH as [_ IH]. destruct acc as [b|]; cbn in IH;
        [destruct (stop_order b <? stop_order a)|]; discriminate.
Qed.

(** The stop the query gives is a stop of the route, and no stop of the
    route has a higher [stop_order]. *)
Lemma last_stop_of_route_highest (route : Z) (d : db) (t : route_stop) :
  Sql.last_stop_of_route route d = Some t ->
  In t (route_stops d) /\ rs_route_id t = route /\
  (forall s, In s (route_stops d) -> rs_route_id s = route ->
             stop_order s <= stop_order t).
Proof.
  unfold Sql.last_stop_of_route. intros H.
  pose proof (highest_order_fold
                (filter (fun s => rs_route_id s =? route) (route_stops d)) None) as F.
  rewrite H in F. destruct F as ([Hin|Hin] & Hmax & _); [|discriminate].
  apply filter_In in Hin. destruct Hin as [Hin E]. apply Z.eqb_eq in E.
  split; [exact Hin|]. split; [exact E|].
  intros s Hs Hr. apply Hmax. apply filter_In. split; [exact Hs|].
  now apply Z.eqb_eq.
Qed.

(** A route with a stop has a last stop. *)
Lemma last_stop_of_route_exists (d : db) (s : route_stop) :
  In s (route_stops d) ->
  exists t, Sql.last_stop_of_route (rs_route_id s) d = Some t.
Proof.
  intros Hin. unfold Sql.last_stop_of_route.
  pose proof (highest_order_fold
                (filter (fun s' => rs_route_id s' =? rs_route_id s) (route_stops d))
                None) as F.
  destruct (fold_left _ _ None) as [t|]; [now exists t|].
  destruct F as [F _].
  assert (In s (filter (fun s' => rs_route_id s' =? rs_route_id s) (route_stops d)))
    as Hf by (apply filter_In; split; [exact Hin | apply Z.eqb_refl]).
  rewrite F in Hf. contradiction.
Qed.

Lemma fare_of_fare (r : route) (a b : route_stop) :
  fare_of r a b =
  fare (base_fare r) (price_per_km r)
    (abs (distance_from_start b - distance_from_start a)).
Proof. unfold fare_of, fare. now rewrite FloatFacts.mul_comm. Qed.

Lemma quiet_no_faults : no_faults quiet.
Proof. intros n. reflexivity. Qed.

(** ** Symbolic execution *)

(** Symbolic execution of code on a connection: unfold the monad, then
    split on the next thing the run depends on. *)
Ltac reduce :=
  cbv beta iota zeta delta
    [bind fetch execute commit print now subscript ret raise py_return rollback
     count_statement try_except run get_db_connection
     Sql.insert_transaction_log
     Sql.update_trip_status Sql.insert_active_trip
     committed pending executed ticks stdout final printed raised].

Ltac exec1 :=
  match goal with
  | H : Sql.user_by_username _ ?d = Some ?u
    |- context [Sql.update_wallet_balance ?b (user_id ?u) ?d] =>
      rewrite (update_wallet_balance_of_row b u d
                 (proj1 (user_by_username_some _ _ _ H)))
  | H : Sql.user_by_id _ ?d = Some ?u
    |- context [Sql.update_wallet_balance ?b (user_id ?u) ?d] =>
      rewrite (update_wallet_balance_of_row b u d
                 (proj1 (user_by_id_some _ _ _ H)))
  | |- context [fails ?e ?n] => destruct (fails e n) eqn:?
  | |- context [match Sql.user_by_username ?a ?b with _ => _ end] =>
      destruct (Sql.user_by_username a b) eqn:?
  | |- context [match Sql.user_by_id ?a ?b with _ => _ end] =>
      destruct (Sql.user_by_id a b) eqn:?
  | |- context [match Sql.route_stop_by_id ?a ?b with _ => _ end] =>
      destruct (Sql.route_stop_by_id a b) eqn:?
  | |- context [match Sql.route_by_id ?a ?b with _ => _ end] =>
      destruct (Sql.route_by_id a b) eqn:?
  | |- context [match Sql.active_trip_of_rider ?a ?b with _ => _ end] =>
      destruct (Sql.active_trip_of_rider a b) eqn:?
  | |- context [match Sql.last_stop_of_route ?a ?b with _ => _ end] =>
      destruct (Sql.last_stop_of_route a b) eqn:?
  | |- context [if Z.eqb ?a ?b then _ else _] => destruct (Z.eqb a b) eqn:?
  | |- context [if is_nan ?a then _ else _] => destruct (is_nan a) eqn:?
  | |- context [if PrimFloat.ltb ?a ?b then _ else _] => destruct (PrimFloat.ltb a b) eqn:?
  end.

Ltac eqb_hyps :=
  repeat match goal with
    | H : (_ =? _) = true |- _ => apply Z.eqb_eq in H
    | H : (_ =? _) = false |- _ => apply Z.eqb_neq in H
    end.

Ltac settle_case k :=
  match goal with
  | Hu : Sql.user_by_id _ _ = Some _,
    Ht : Sql.route_stop_by_id _ _ = Some ?t,
    Hr : Sql.route_by_id (rs_route_id ?t) _ = Some _,
    Hl : Sql.last_stop_of_route (rs_route_id ?t) _ = Some _ |- _ =>
      k Hu Ht Hr Hl
  end.

Ltac why_none :=
  first
    [ left;
      match goal with
      | F : fails _ ?n = true |- _ => exists n; exact F
      end
    | right; intros (? & ? & ? & ? & ? & ? & ? & ? & ?);
      unfold fare_of in *;
      repeat match goal with
        | H1 : ?q = None, H2 : ?q = Some _ |- _ =>
            rewrite H1 in H2; discriminate
        | H1 : ?q = Some _, H2 : ?q = Some _ |- _ =>
            rewrite H1 in H2; injection H2 as <-
        end;
      congruence ].

(** Execution along a known path: the lookups and the faults are given by
    hypotheses of the context. *)
Ltac known :=
  match goal with
  | H : Sql.user_by_username _ ?d = Some ?u
    |- context [Sql.update_wallet_balance ?b (user_id ?u) ?d] =>
      rewrite (update_wallet_balance_of_row b u d
                 (proj1 (user_by_username_some _ _ _ H)))
  | H : Sql.user_by_id _ ?d = Some ?u
    |- context [Sql.update_wallet_balance ?b (user_id ?u) ?d] =>
      rewrite (update_wallet_balance_of_row b u d
                 (proj1 (user_by_id_some _ _ _ H)))
  | H : no_faults ?e |- context [fails ?e ?n] => rewrite (H n)
  | H : ?q = Some _ |- context [?q] => rewrite H
  | H : ?q = None |- context [?q] => rewrite H
  | H : ?b = true |- context [if ?b then _ else _] => rewrite H
  | H : ?b = false |- context [if ?b then _ else _] => rewrite H
  end.

Ltac along_path := repeat (reduce; known); reduce.

(** ** The effects of the two functions *)

Lemma process_rider_tap_effect e name cur sh d :
  raised (process_rider_tap e name cur sh d) = None /\
  tap_effect e name cur sh d (final (process_rider_tap e name cur sh d)).
Proof.
  unfold process_rider_tap, process_rider_tap_try. reduce.
  repeat (exec1; reduce); (split; [reflexivity|]); try apply tap_nothing; eqb_hyps.
  - match goal with
    | Hu : Sql.user_by_username _ _ = Some _,
      Hc : Sql.route_stop_by_id cur _ = Some ?cs,
      Hr : Sql.route_by_id (rs_route_id ?cs) _ = Some _,
      Ha : Sql.active_trip_of_rider _ _ = Some ?a,
      Ht : Sql.route_stop_by_id (tap_on_route_stop_id ?a) _ = Some ?t,
      Hn : tap_on_route_stop_id ?a <> rs_id ?cs,
      He : rs_route_id ?t = rs_route_id ?cs |- _ =>
        exact (tap_off e name cur sh d _ _ _ _ _ Hu Hc Hr Ha Ht Hn He)
    end.
  - match goal with
    | Hu : Sql.user_by_username _ _ = Some _,
      Hc : Sql.route_stop_by_id cur _ = Some ?cs,
      Hr : Sql.route_by_id (rs_route_id ?cs) _ = Some _,
      Ha : Sql.active_trip_of_rider _ _ = Some ?a,
      Ht : Sql.route_stop_by_id (tap_on_route_stop_id ?a) _ = Some ?t,
      Hn : tap_on_route_stop_id ?a <> rs_id ?cs,
      He : rs_route_id ?t <> rs_route_id ?cs,
      Hl : Sql.last_stop_of_route (rs_route_id ?t) _ = Some _,
      Ho : Sql.route_by_id (rs_route_id ?t) _ = Some _,
      Hu' : Sql.user_by_id _ _ = Some _,
      Hb : (_ <? _)%float = false |- _ =>
        exact (tap_forced_on e name cur sh d _ _ _ _ _ _ _ _
                 Hu Hc Hr Ha Ht Hn He Hl Ho Hu' Hb)
    end.
  - match goal with
    | Hu : Sql.user_by_username _ _ = Some _,
      Hc : Sql.route_stop_by_id cur _ = Some ?cs,
      Hr : Sql.route_by_id (rs_route_id ?cs) _ = Some _,
      Ha : Sql.active_trip_of_rider _ _ = None,
      Hb : (_ <? _)%float = false |- _ =>
        exact (tap_on e name cur sh d _ _ _ Hu Hc Hr Ha Hb)
    end.
Qed.

Lemma handle_end_of_shift_step_effect (trip : active_trip) (e : env) (c : conn) :
  exists c' l,
    handle_end_of_shift_step trip e c = (Normal tt, c') /\
    committed c' = committed c /\
    stdout c' = (stdout c ++ [l])%list /\
    settle_effect e trip (pending c) (pending c') l.
Proof.
  destruct c as [cm p ex tk so].
  unfold handle_end_of_shift_step, handle_end_of_shift_try. reduce.
  repeat (exec1; reduce);
    (eexists; eexists; split; [reflexivity|]; split; [reflexivity|];
     split; [reflexivity|]; reduce);
    try (apply settle_none; why_none);
    try (exfalso;
         match goal with
         | N : is_nan (?a - ?b) = false, M : is_nan (- ?b) = true |- _ =>
             rewrite (FloatFacts.is_nan_sub_opp a b N) in M; discriminate
         end).
  all: lazymatch goal with
       | |- settle_effect ?env ?tr _ _ _ =>
         settle_case ltac:(fun Hu Ht Hr Hl =>
           first
             [ match goal with
               | N : is_nan (_ - _) = false |- _ =>
                   exact (settle_all env tr _ _ _ _ _ _ Hu Ht Hr Hl N)
               end
             | match goal with
               | F : fails env _ = true |- _ =>
                   exact (settle_debit_only env tr _ _ _ _ _ _ Hu Ht Hr Hl F)
               end
             | match goal with
               | F : fails env _ = true, N : is_nan (_ - _) = false |- _ =>
                   exact (settle_debit_and_log env tr _ _ _ _ _ _ _ Hu Ht Hr Hl F N)
               end ])
       end.
Qed.

Lemma for_each_step_effect (trips : list active_trip) :
  forall (e : env) (c : conn),
  exists c' ls,
    for_each trips handle_end_of_shift_step e c = (Normal tt, c') /\
    committed c' = committed c /\
    stdout c' = (stdout c ++ ls)%list /\
    loop_effect e trips (pending c) (pending c') ls.
Proof.
  induction trips as [|trip trips IH]; intros e c.
  - exists c, []. cbn. rewrite app_nil_r. repeat split. constructor.
  - destruct (handle_end_of_shift_step_effect trip e c)
      as (c1 & l & E1 & C1 & O1 & S1).
    destruct (IH e c1) as (c2 & ls & E2 & C2 & O2 & S2).
    exists c2, (l :: ls). cbn [for_each]. unfold bind at 1. rewrite E1, E2.
    repeat split.
    + congruence.
    + rewrite O2, O1, <- app_assoc. reflexivity.
    + econstructor; eassumption.
Qed.

Lemma handle_end_of_shift_effect (e : env) (sh : Z) (d : db) :
  shift_effect e sh d (handle_end_of_shift e sh d).
Proof.
  unfold handle_end_of_shift, handle_end_of_shift_body. reduce.
  destruct (fails e 0) eqn:F0; reduce; [now constructor|].
  destruct (Sql.active_trips_on_shuttle sh d) as [|t ts] eqn:T; reduce;
    [now constructor|].
  match goal with
  | |- context [for_each ?l ?f ?env ?c] =>
      destruct (for_each_step_effect l env c) as (c' & ls & E & C & O & L);
      rewrite E
  end.
  destruct c' as [cm pd ex tk so]. cbn in C, O, L. subst cm so. reduce.
  rewrite <- T in L.
  assert (Sql.active_trips_on_shuttle sh d <> []) as NE
    by (rewrite T; discriminate).
  destruct (fails e ex) eqn:F1; reduce.
  - pose proof (shift_commit_fails e sh d _ _ _ F0 NE L F1) as R.
    rewrite T in R. exact R.
  - pose proof (shift_committed e sh d _ _ F0 NE L) as R.
    rewrite T in R. exact R.
Qed.

Lemma advance_nil (u : user) : advance [] u = u.
Proof. destruct u. reflexivity. Qed.

Lemma advance_app (es1 es2 : list transaction_log) (u : user) :
  advance es2 (advance es1 u) = advance (es1 ++ es2) u.
Proof.
  unfold advance, apply_entries. cbn [Sql.set_wallet_balance user_id wallet_balance].
  rewrite filter_app, fold_left_app. reflexivity.
Qed.

Lemma user_id_advance (es : list transaction_log) (u : user) :
  user_id (advance es u) = user_id u.
Proof. reflexivity. Qed.

Lemma tracks_refl (d : db) : tracks d d.
Proof.
  exists []. split; [now rewrite app_nil_r|].
  rewrite <- (map_id (users d)) at 1. apply map_ext. intros u.
  now rewrite advance_nil.
Qed.

Lemma tracks_trans (d1 d2 d3 : db) : tracks d1 d2 -> tracks d2 d3 -> tracks d1 d3.
Proof.
  intros (es1 & L1 & U1) (es2 & L2 & U2). exists (es1 ++ es2)%list. split.
  - rewrite L2, L1, app_assoc. reflexivity.
  - rewrite U2, U1, map_map. apply map_ext. intros u. apply advance_app.
Qed.

Lemma tracks_unique (d d' : db) :
  tracks d d' -> user_ids_unique d -> user_ids_unique d'.
Proof.
  intros (es & _ & U) N. unfold user_ids_unique in *.
  rewrite U, map_map. erewrite map_ext; [exact N|]. intros u. reflexivity.
Qed.

Lemma ledger_sum_apply (rider : Z) (logs entries : list transaction_log) :
  ledger_sum rider (logs ++ entries) =
  apply_entries (ledger_sum rider logs) rider entries.
Proof.
  unfold ledger_sum, apply_entries. rewrite filter_app, fold_left_app.
  reflexivity.
Qed.

(** Tracking keeps the ledger invariant. *)
Lemma tracks_balanced (d d' : db) : tracks d d' -> balanced d -> balanced d'.
Proof.
  intros (es & L & U) B u' Hu'. rewrite U in Hu'. apply in_map_iff in Hu'.
  destruct Hu' as (u & <- & Hu). rewrite L, ledger_sum_apply.
  cbn [advance wallet_balance user_id Sql.set_wallet_balance].
  unfold advance. cbn [wallet_balance user_id Sql.set_wallet_balance].
  now rewrite <- (B u Hu).
Qed.

(** A settlement moves the balance of its rider by the row it logs, and no
    other balance. *)
Lemma settled_tracks (rider : user) (fare : float) (ts : string) (tid : Z)
    (st : TripStatus) (d : db) :
  In rider (users d) ->
  user_ids_unique d ->
  tracks d
    (settled (user_id rider) (wallet_balance rider - fare) fare ts tid st d).
Proof.
  intros Hin N. eexists. split; [reflexivity|]. cbn [settled users].
  apply map_ext_in. intros u Hu. unfold advance, apply_entries. cbn [filter tx_rider_id].
  rewrite (Z.eqb_sym (user_id rider)).
  destruct (user_id u =? user_id rider) eqn:E.
  - apply Z.eqb_eq in E.
    rewrite (NoDup_map_same user_id (users d) u rider N Hu Hin E).
    cbn [fold_left amount]. now rewrite FloatFacts.real_sub.
  - cbn [fold_left]. destruct u. reflexivity.
Qed.

Lemma opened_tracks (uid sh rs : Z) (ts : string) (d : db) :
  tracks d (opened uid sh rs ts d).
Proof.
  destruct (tracks_refl d) as (es & L & U). exists es. now split.
Qed.

Lemma tap_effect_tracks e name cur sh d d' :
  tap_effect e name cur sh d d' -> user_ids_unique d -> tracks d d'.
Proof.
  intros T N. destruct T as [ | rider ? ? ? ? Hu | rider ? ? ? ? ? ? ? Hu | ].
  - apply tracks_refl.
  - apply settled_tracks; [|assumption].
    now apply user_by_username_some in Hu.
  - eapply tracks_trans; [|apply opened_tracks].
    apply settled_tracks; [|assumption].
    now apply user_by_username_some in Hu.
  - apply opened_tracks.
Qed.

Lemma settle_effect_tracks e trip p p' l :
  (forall n, fails e n = false) ->
  settle_effect e trip p p' l -> user_ids_unique p -> tracks p p'.
Proof.
  intros Hnf S N. destruct S as [ | ? ? ? ? ? ? ? ? ? F | ? ? ? ? ? ? ? ? ? ? F | rider ? ? ? ? Hu ].
  - apply tracks_refl.
  - rewrite Hnf in F. discriminate.
  - rewrite Hnf in F. discriminate.
  - apply settled_tracks; [|assumption]. now apply user_by_id_some in Hu.
Qed.

Lemma loop_effect_tracks e trips p p' ls :
  (forall n, fails e n = false) ->
  loop_effect e trips p p' ls -> user_ids_unique p -> tracks p p'.
Proof.
  intros Hnf L. induction L as [|trip trips p p1 p2 l ls S L IH]; intros N.
  - apply tracks_refl.
  - pose proof (settle_effect_tracks e trip p p1 l Hnf S N) as T.
    eapply tracks_trans; [exact T|]. apply IH. eapply tracks_unique; eassumption.
Qed.

Lemma shift_effect_tracks e sh d r :
  no_faults e -> shift_effect e sh d r -> user_ids_unique d -> tracks d (final r).
Proof.
  intros Hnf S N. destruct S; cbn [final]; try apply tracks_refl.
  eapply loop_effect_tracks; eassumption.
Qed.

Lemma is_active_of_set_status (rider : Z) (st : TripStatus) (tid : Z)
    (t : active_trip) :
  st <> ACTIVE ->
  Sql.is_active_of rider (if trip_id t =? tid then Sql.set_status st t else t) = true ->
  Sql.is_active_of rider t = true /\ trip_id t <> tid.
Proof.
  intros Hst. destruct (trip_id t =? tid) eqn:E.
  - unfold Sql.is_active_of. cbn. destruct st; try congruence;
      rewrite andb_false_r; discriminate.
  - apply Z.eqb_neq in E. now split.
Qed.

(** Closing trips keeps the invariant. *)
Lemma closed_one_active (st : TripStatus) (tid : Z) (d d' : db) :
  st <> ACTIVE ->
  active_trips d' =
    map (fun t => if trip_id t =? tid then Sql.set_status st t else t)
      (active_trips d) ->
  one_active d -> one_active d'.
Proof.
  intros Hst E O rider. unfold active_trips_of. rewrite E.
  etransitivity; [apply filter_map_length | apply (O rider)].
  intros t H. now apply (is_active_of_set_status rider st tid t Hst) in H.
Qed.

Lemma same_trips_one_active (d d' : db) :
  active_trips d' = active_trips d -> one_active d -> one_active d'.
Proof. intros E O rider. unfold active_trips_of. rewrite E. apply O. Qed.

(** Opening a trip for a rider who has none keeps the invariant. *)
Lemma opened_one_active (uid sh rs : Z) (ts : string) (d : db) :
  active_trips_of uid d = [] ->
  one_active d -> one_active (opened uid sh rs ts d).
Proof.
  intros Hn O rider. unfold active_trips_of, opened. cbn [active_trips Sql.with_active_trips].
  rewrite filter_app, length_app. cbn [filter]. unfold Sql.is_active_of at 2.
  cbn [rider_id status TripStatus_eqb]. rewrite andb_true_r.
  destruct (uid =? rider) eqn:E; cbn [List.length].
  - apply Z.eqb_eq in E. subst rider. unfold active_trips_of in Hn.
    rewrite Hn. cbn. lia.
  - specialize (O rider). unfold active_trips_of in O. lia.
Qed.

(** Once the only ACTIVE trip of a rider is closed, the rider has none. *)
Lemma closed_none_active (st : TripStatus) (rider : Z) (trip : active_trip)
    (d d' : db) :
  st <> ACTIVE ->
  active_trips d' =
    map (fun t => if trip_id t =? trip_id trip then Sql.set_status st t else t)
      (active_trips d) ->
  Sql.active_trip_of_rider rider d = Some trip ->
  one_active d ->
  active_trips_of rider d' = [].
Proof.
  intros Hst E F O. unfold active_trips_of. rewrite E.
  pose proof (find_some_filter _ _ _ F (O rider)) as L.
  destruct (filter (Sql.is_active_of rider) (map _ (active_trips d)))
    as [|t' l'] eqn:Q; [reflexivity|exfalso].
  assert (In t' (filter (Sql.is_active_of rider)
                   (map (fun t => if trip_id t =? trip_id trip
                                  then Sql.set_status st t else t)
                      (active_trips d)))) as Hin by (rewrite Q; now left).
  apply filter_In in Hin. destruct Hin as [Hin Ha].
  apply in_map_iff in Hin. destruct Hin as (t & <- & Ht).
  apply (is_active_of_set_status rider st (trip_id trip) t Hst) in Ha.
  destruct Ha as [Ha Hne].
  assert (In t (filter (Sql.is_active_of rider) (active_trips d))) as Hf
    by (apply filter_In; now split).
  rewrite L in Hf. destruct Hf as [<-|[]]. now apply Hne.
Qed.

Lemma tap_effect_one_active e name cur sh d d' :
  tap_effect e name cur sh d d' -> one_active d -> one_active d'.
Proof.
  intros T O.
  destruct T as [ | rider ? ? trip | rider ? ? trip ? ? ? rider' ? ? ? Ha ? ? ? ? ? Hr | rider ? ? ? ? ? Ha ].
  - assumption.
  - apply (closed_one_active COMPLETED (trip_id trip) d); [discriminate|reflexivity|assumption].
  - apply user_by_id_some in Hr. destruct Hr as [_ Hr]. rewrite Hr.
    apply opened_one_active.
    + eapply (closed_none_active AUTO_COMPLETED (user_id rider) trip d);
        [discriminate | reflexivity | eassumption | assumption].
    + apply (closed_one_active AUTO_COMPLETED (trip_id trip) d);
        [discriminate|reflexivity|assumption].
  - apply opened_one_active; [|assumption].
    apply find_none_filter. exact Ha.
Qed.

Lemma settle_effect_one_active e trip p p' l :
  settle_effect e trip p p' l -> one_active p -> one_active p'.
Proof.
  intros S O. destruct S.
  - assumption.
  - now apply (same_trips_one_active p).
  - now apply (same_trips_one_active p).
  - apply (closed_one_active AUTO_COMPLETED (trip_id trip) p);
      [discriminate|reflexivity|assumption].
Qed.

Lemma loop_effect_one_active e trips p p' ls :
  loop_effect e trips p p' ls -> one_active p -> one_active p'.
Proof.
  intros L. induction L as [|trip trips p p1 p2 l ls S L IH]; intros O.
  - assumption.
  - apply IH. eapply settle_effect_one_active; eassumption.
Qed.

Lemma shift_effect_one_active e sh d r :
  shift_effect e sh d r -> one_active d -> one_active (final r).
Proof.
  intros S O. destruct S; cbn [final]; try assumption.
  eapply loop_effect_one_active; eassumption.
Qed.

Lemma same_topology_trans (d1 d2 d3 : db) :
  same_topology d1 d2 -> same_topology d2 d3 -> same_topology d1 d3.
Proof. intros [A B] [C D]. split; congruence. Qed.

Lemma forced_charge_topology (d d' : db) (trip : active_trip)
    (en : transaction_log) :
  same_topology d d' -> forced_charge d' trip en -> forced_charge d trip en.
Proof.
  intros [R S] (tap_on & route & terminal & H1 & H2 & H3 & H4 & H5 & H).
  exists tap_on, route, terminal.
  unfold Sql.route_stop_by_id, Sql.route_by_id, Sql.last_stop_of_route in *.
  rewrite S in H1, H3, H5. rewrite R in H2.
  split; [exact H1|]. split; [exact H2|]. split; [exact H3|].
  split; [exact H4|]. split; [exact H5|]. exact H.
Qed.

Lemma settle_effect_ledger e trip p p' l :
  settle_effect e trip p p' l ->
  same_topology p p' /\
  exists entries,
    transaction_logs p' = (transaction_logs p ++ entries)%list /\
    Forall (forced_charge p trip) entries.
Proof.
  intros S.
  assert (forall rider tap_on route last_stop ts,
            Sql.route_stop_by_id (tap_on_route_stop_id trip) p = Some tap_on ->
            Sql.route_by_id (rs_route_id tap_on) p = Some route ->
            Sql.last_stop_of_route (rs_route_id tap_on) p = Some last_stop ->
            is_nan (wallet_balance rider - fare_of route tap_on last_stop) = false ->
            forced_charge p trip
              (mk_transaction_log (Sql.next_id tx_id (transaction_logs p))
                 (user_id rider) (Sql.real (- fare_of route tap_on last_stop))
                 RIDE_PAYMENT ts (Some (trip_id trip)))) as K.
  { intros rider tap_on route last_stop ts Ht Hr Hl N.
    destruct (last_stop_of_route_highest _ _ _ Hl) as (_ & T1 & T2).
    exists tap_on, route, last_stop. rewrite <- fare_of_fare.
    do 7 (split; [assumption || reflexivity|]).
    cbn [amount]. split; [reflexivity|].
    apply FloatFacts.real_eqb. exact (FloatFacts.is_nan_sub_opp _ _ N). }
  destruct S as [ | | rider tap_on route last_stop ts n Hu Ht Hr Hl F N
                  | rider tap_on route last_stop ts Hu Ht Hr Hl N ].
  - split; [now split|]. exists []. now rewrite app_nil_r.
  - split; [now split|]. exists []. now rewrite app_nil_r.
  - split; [now split|]. eexists. split; [reflexivity|].
    constructor; [|constructor]. now apply K.
  - split; [now split|]. eexists. split; [reflexivity|].
    constructor; [|constructor]. now apply K.
Qed.

Lemma loop_effect_ledger e trips p p' ls :
  loop_effect e trips p p' ls ->
  same_topology p p' /\
  exists entries,
    transaction_logs p' = (transaction_logs p ++ entries)%list /\
    Forall (fun en => exists trip, In trip trips /\ forced_charge p trip en)
      entries.
Proof.
  intros L. induction L as [|trip trips p p1 p2 l ls S L IH].
  - split; [now split|]. exists []. now rewrite app_nil_r.
  - destruct (settle_effect_ledger e trip p p1 l S) as (T1 & es1 & E1 & F1).
    destruct IH as (T2 & es2 & E2 & F2).
    split; [eapply same_topology_trans; eassumption|].
    exists (es1 ++ es2)%list. split; [rewrite E2, E1, app_assoc; reflexivity|].
    apply Forall_app. split.
    + eapply Forall_impl; [|exact F1]. intros en H. exists trip.
      split; [now left | exact H].
    + eapply Forall_impl; [|exact F2]. intros en (t & Hin & H). exists t.
      split; [now right|]. eapply forced_charge_topology; eassumption.
Qed.

Lemma shift_effect_ledger e sh d r :
  shift_effect e sh d r ->
  exists entries,
    transaction_logs (final r) = (transaction_logs d ++ entries)%list /\
    Forall (fun en => exists trip,
              In trip (Sql.active_trips_on_shuttle sh d) /\
              forced_charge d trip en) entries.
Proof.
  intros S. destruct S as [ | | p ls F0 NE L | ]; cbn [final];
    try (exists []; now rewrite app_nil_r).
  exact (proj2 (loop_effect_ledger e _ d p ls L)).
Qed.


Lemma closed_status (tid : Z) (ts : list active_trip) (t : active_trip) :
  In t (map (fun t => if trip_id t =? tid
                      then Sql.set_status AUTO_COMPLETED t else t) ts) ->
  trip_id t = tid -> status t = AUTO_COMPLETED.
Proof.
  intros Hin E. apply in_map_iff in Hin. destruct Hin as (t0 & <- & _).
  destruct (trip_id t0 =? tid) eqn:Q; [reflexivity|].
  apply Z.eqb_neq in Q. contradiction.
Qed.

Lemma closed_keeps_status (tid : Z) (ts : list active_trip) (t : active_trip) :
  In t (map (fun t => if trip_id t =? tid
                      then Sql.set_status AUTO_COMPLETED t else t) ts) ->
  status t = AUTO_COMPLETED \/ In t ts.
Proof.
  intros Hin. apply in_map_iff in Hin. destruct Hin as (t0 & <- & H0).
  destruct (trip_id t0 =? tid); [now left | now right].
Qed.

Lemma settle_effect_settles e trip p p' l :
  settle_effect e trip p p' l -> reports_settlement l -> settled_in trip p'.
Proof.
  intros S (name & f & ->). inversion S; subst. split.
  - intros t Hin E. cbn [settled active_trips] in Hin.
    eapply closed_status; eassumption.
  - eexists. split; [cbn [settled transaction_logs]; apply in_or_app; right; now left|].
    now split.
Qed.

Lemma settle_effect_keeps_settled e trip p p' l (other : active_trip) :
  settle_effect e trip p p' l -> settled_in other p -> settled_in other p'.
Proof.
  intros S [H1 (en & Hen & H2)]. destruct S.
  - now split; [|exists en].
  - split; [exact H1 | exists en; now split].
  - split; [exact H1|]. exists en. split; [|exact H2].
    cbn [logged debited transaction_logs Sql.with_transaction_logs Sql.with_users].
    apply in_or_app. now left.
  - split.
    + intros t Hin E. cbn [settled active_trips] in Hin.
      apply closed_keeps_status in Hin. destruct Hin as [Hin|Hin];
        [exact Hin | now apply H1].
    + exists en. split; [|exact H2]. cbn [settled transaction_logs].
      apply in_or_app. now left.
Qed.

Lemma loop_effect_keeps_settled e trips p p' ls (other : active_trip) :
  loop_effect e trips p p' ls -> settled_in other p -> settled_in other p'.
Proof.
  intros L. induction L as [|trip trips p p1 p2 l ls S L IH]; intros H.
  - exact H.
  - apply IH. eapply settle_effect_keeps_settled; eassumption.
Qed.


(** When SQLite carries out every statement, a trip that nothing stands in
    the way of is settled by its turn. *)
Lemma settle_effect_settleable e trip p p' l :
  no_faults e -> settle_effect e trip p p' l -> settleable p trip ->
  reports_settlement l.
Proof.
  intros Hnf S Hs.
  destruct S as [ ex [(n & F)|N] | ? ? ? ? n ? ? ? ? F | ? ? ? ? ? n ? ? ? ? F | ].
  - rewrite Hnf in F. discriminate.
  - contradiction.
  - rewrite Hnf in F. discriminate.
  - rewrite Hnf in F. discriminate.
  - unfold reports_settlement. eauto.
Qed.

(** The settlement of a trip of another rider leaves what the settlement
    of [trip] needs as it was. *)
Lemma settle_effect_keeps_settleable e other p p' l (trip : active_trip) :
  no_faults e -> settle_effect e other p p' l ->
  rider_id other <> rider_id trip ->
  settleable p trip -> settleable p' trip.
Proof.
  intros Hnf S Hne Hs.
  destruct S as [ | ? ? ? ? n ? ? ? ? F | ? ? ? ? ? n ? ? ? ? F
                | rider' ? ? ? ts Hu' ]; try exact Hs;
    try (rewrite Hnf in F; discriminate).
  destruct Hs as (rd & tp & rt & lst & Hu & Ht & Hr & Hl & N).
  exists rd, tp, rt, lst.
  repeat split; try assumption.
  unfold Sql.user_by_id in *. cbn [settled users].
  rewrite find_map_other; [exact Hu | |].
  - intros u. now destruct (user_id u =? user_id rider').
  - intros u E. apply Z.eqb_eq in E.
    apply find_some in Hu'. destruct Hu' as [_ Hu']. apply Z.eqb_eq in Hu'.
    destruct (user_id u =? user_id rider') eqn:Q; [|reflexivity].
    apply Z.eqb_eq in Q. congruence.
Qed.

(** A failure in the turn of one trip does not keep a later trip from being
    settled. *)
Lemma loop_effect_settles e (before : list active_trip) :
  no_faults e ->
  forall (trip : active_trip) (after : list active_trip) p p' ls,
    loop_effect e (before ++ trip :: after) p p' ls ->
    (forall other, In other before -> rider_id other <> rider_id trip) ->
    settleable p trip ->
    settled_in trip p'.
Proof.
  intros Hnf trip after. induction before as [|b before IH]; intros p p' ls L Hd Hs.
  - cbn in L. inversion L as [|? ? ? p1 ? l ls' S L']; subst.
    eapply loop_effect_keeps_settled; [exact L'|].
    eapply settle_effect_settles; [exact S|].
    eapply settle_effect_settleable; eassumption.
  - cbn in L. inversion L as [|? ? ? p1 ? l ls' S L']; subst.
    apply (IH p1 p' ls' L').
    + intros other Hin. apply Hd. now right.
    + eapply settle_effect_keeps_settleable; [exact Hnf | exact S | | exact Hs].
      apply Hd. now left.
Qed.

(** Whatever the input, a tap that settles a forgotten trip and then refuses
    the tap-on returns before the commit: what it prints says the maximum
    fare was charged, and the database is as it was. *)
Lemma refused_tap_on_discards_forced_settlement
    (e : env) (rider_username : string) (current_route_stop shuttle_id : Z)
    (d : db) (rider rider' : user) (current_stop tap_on terminal : route_stop)
    (route old_route : route) (trip : active_trip) :
  no_faults e ->
  Sql.user_by_username rider_username d = Some rider ->
  Sql.route_stop_by_id current_route_stop d = Some current_stop ->
  Sql.route_by_id (rs_route_id current_stop) d = Some route ->
  Sql.active_trip_of_rider (user_id rider) d = Some trip ->
  Sql.route_stop_by_id (tap_on_route_stop_id trip) d = Some tap_on ->
  tap_on_route_stop_id trip <> rs_id current_stop ->
  rs_route_id tap_on <> rs_route_id current_stop ->
  Sql.last_stop_of_route (rs_route_id tap_on) d = Some terminal ->
  Sql.route_by_id (rs_route_id tap_on) d = Some old_route ->
  let charged := fare_of old_route tap_on terminal in
  is_nan (wallet_balance rider - charged) = false ->
  Sql.user_by_id (user_id rider)
    (settled (user_id rider) (wallet_balance rider - charged) charged
       (clock e 0) (trip_id trip) AUTO_COMPLETED d) = Some rider' ->
  (wallet_balance rider' <? base_fare route)%float = true ->
  process_rider_tap e rider_username current_route_stop shuttle_id d =
  mk_result d
    [ForgotToTapOff (username rider);
     ChargedMaxFare charged (wallet_balance rider - charged);
     TappingOn (username rider');
     TapOnFailed (base_fare route) (wallet_balance rider')]
    None.
Proof.
  intros Hnf Hu Hc Hr Ha Ht Hne Hdiff Hl Ho charged Hnan Hu' Hb.
  pose proof (FloatFacts.is_nan_sub_opp _ _ Hnan) as Hnan'.
  unfold charged, fare_of in Hnan, Hnan' |- *.
  apply Z.eqb_neq in Hne. apply Z.eqb_neq in Hdiff.
  unfold process_rider_tap, process_rider_tap_try.
  along_path.
  match goal with
  | |- context [Sql.user_by_id ?a ?b] =>
      replace (Sql.user_by_id a b) with (Some rider') by (symmetry; exact Hu')
  end.
  along_path. reflexivity.
Qed.

(** When SQLite carries out every statement, a turn of the end-of-shift
    loop makes the three writes of its trip or none of them. *)
Lemma end_of_shift_turn_all_or_nothing
    (e : env) (trip : active_trip) (p p' : db) (l : line) :
  no_faults e -> settle_effect e trip p p' l ->
  p' = p \/
  exists uid new_balance charged ts,
    p' = settled uid new_balance charged ts (trip_id trip) AUTO_COMPLETED p.
Proof.
  intros Hnf S.
  destruct S as [ | ? ? ? ? n ? ? ? ? F | ? ? ? ? ? n ? ? ? ? F | ];
    try (rewrite Hnf in F; discriminate); [now left|right; eauto].
Qed.

(** ** More on the effects of the engine *)

Lemma settle_effect_rows e trip p p' l (t : active_trip) :
  settle_effect e trip p p' l -> In t (active_trips p') ->
  status t = AUTO_COMPLETED \/ In t (active_trips p).
Proof.
  intros S Hin. destruct S; cbn in Hin; auto.
  - apply closed_keeps_status in Hin. exact Hin.
Qed.

Lemma loop_effect_rows e trips p p' ls (t : active_trip) :
  loop_effect e trips p p' ls -> In t (active_trips p') ->
  status t = AUTO_COMPLETED \/ In t (active_trips p).
Proof.
  induction 1 as [|trip trips p p1 p2 l ls S L IH]; intros Hin; auto.
  destruct (IH Hin) as [|H1]; auto.
  eapply settle_effect_rows; eassumption.
Qed.

Lemma filter_split_length {A : Type} (p : A -> bool) (l1 l2 : list A) (x y : A) :
  In x l1 -> p x = true -> p y = true ->
  (2 <= List.length (filter p (l1 ++ y :: l2)))%nat.
Proof.
  intros Hin Hx Hy. rewrite filter_app, length_app. cbn. rewrite Hy. cbn.
  assert (In x (filter p l1)) as H by (apply filter_In; auto).
  destruct (filter p l1); [contradiction | cbn; lia].
Qed.

Lemma filter_filter_length {A : Type} (p q : A -> bool) (l : list A) :
  (List.length (filter p (filter q l)) <= List.length (filter p l))%nat.
Proof.
  induction l as [|a l IH]; cbn; [lia|].
  destruct (q a), (p a) eqn:E; cbn; rewrite ?E; cbn; lia.
Qed.

Lemma one_active_distinct_riders (sh : Z) (d : db)
    (before after : list active_trip) (trip other : active_trip) :
  one_active d ->
  Sql.active_trips_on_shuttle sh d = (before ++ trip :: after)%list ->
  In other before -> rider_id other <> rider_id trip.
Proof.
  intros O E Hin Heq.
  assert (forall t, In t (before ++ trip :: after)%list ->
                    TripStatus_eqb (status t) ACTIVE = true) as Hact.
  { intros t Ht. rewrite <- E in Ht. apply filter_In in Ht.
    destruct Ht as [_ Ht]. unfold Sql.is_active_on in Ht.
    apply andb_true_iff in Ht. tauto. }
  pose proof (filter_split_length (Sql.is_active_of (rider_id trip))
                before after other trip Hin) as L.
  rewrite <- E in L. unfold Sql.active_trips_on_shuttle in L.
  pose proof (filter_filter_length (Sql.is_active_of (rider_id trip))
                (Sql.is_active_on sh) (active_trips d)) as L'.
  specialize (O (rider_id trip)). unfold active_trips_of in O.
  assert (Sql.is_active_of (rider_id trip) other = true) as H1.
  { unfold Sql.is_active_of. rewrite Heq, Z.eqb_refl.
    apply Hact. apply in_or_app. now left. }
  assert (Sql.is_active_of (rider_id trip) trip = true) as H2.
  { unfold Sql.is_active_of. rewrite Z.eqb_refl.
    apply Hact. apply in_or_app. right. now left. }
  specialize (L H1 H2). lia.
Qed.


(** ** The interactive program *)

Ltac io :=
  cbv beta iota zeta delta
    [Cli.bind Cli.ret Cli.raise Cli.py_return Cli.print Cli.input Cli.getpass
     Cli.strip Cli.lower Cli.float Cli.int Cli.hash_password Cli.check_password
     Cli.subscript Cli.now Cli.get_db_connection Cli.fetch Cli.fetch_with
     Cli.execute Cli.execute_with Cli.commit Cli.rollback Cli.close
     Cli.try_except Cli.try_finally Cli.try_except_after Cli.call
     Cli.lines_left
     Cli.with_database Cli.with_transaction Cli.with_conn_bound
     Cli.with_keyboard Cli.shows Cli.count_statement Cli.count_reading
     Cli.count_call
     Cli.database Cli.transaction Cli.conn_bound Cli.keyboard Cli.screen
     Cli.statements Cli.readings Cli.calls
     start forallb negb andb fst snd].

Ltac io1 :=
  match goal with
  | |- context [match ?k with [] => _ | _ :: _ => _ end] =>
      is_var k; destruct k as [|? k]
  | |- context [Cli.sqlite_fails ?s ?n] => destruct (Cli.sqlite_fails s n) eqn:?
  | |- context [match Cli.float_of_str ?p ?l with _ => _ end] =>
      destruct (Cli.float_of_str p l) eqn:?
  | |- context [match Cli.int_of_str ?p ?l with _ => _ end] =>
      destruct (Cli.int_of_str p l) eqn:?
  | |- context [if (?a <=? 0)%float then _ else _] =>
      destruct (a <=? 0)%float eqn:?
  | |- context [if Cli.fits_sqlite ?z then _ else _] =>
      destruct (Cli.fits_sqlite z) eqn:?
  | |- context [if String.eqb ?a ?b then _ else _] =>
      destruct (String.eqb a b) eqn:?
  | |- context [match Cli.str_strip ?p ?l with _ => _ end] =>
      destruct (Cli.str_strip p l) eqn:?
  | |- context [match Query.insert_user ?a ?b ?c ?r ?d with _ => _ end] =>
      destruct (Query.insert_user a b c r d) eqn:?
  | |- context [match Query.add_to_wallet_balance ?a ?i ?d with _ => _ end] =>
      destruct (Query.add_to_wallet_balance a i d) eqn:?
  | |- context [match Query.insert_stop ?a ?d with _ => _ end] =>
      destruct (Query.insert_stop a d) eqn:?
  | |- context [match Query.insert_shuttle ?a ?b ?d with _ => _ end] =>
      destruct (Query.insert_shuttle a b d) eqn:?
  | |- context [match Query.insert_route ?a ?b ?c ?d with _ => _ end] =>
      destruct (Query.insert_route a b c d) eqn:?
  | |- context [match Query.insert_route_stop ?a ?b ?c ?x ?d with _ => _ end] =>
      destruct (Query.insert_route_stop a b c x d) eqn:?
  | |- context [match Sql.insert_transaction_log ?a ?b ?c ?d ?e ?f with _ => _ end] =>
      destruct (Sql.insert_transaction_log a b c d e f) eqn:?
  | |- context [match Sql.user_by_id ?a ?b with _ => _ end] =>
      destruct (Sql.user_by_id a b) eqn:?
  | |- context [match Sql.user_by_username ?a ?b with _ => _ end] =>
      destruct (Sql.user_by_username a b) eqn:?
  | |- context [match Query.shuttle_by_id ?a ?b with _ => _ end] =>
      destruct (Query.shuttle_by_id a b) eqn:?
  | |- context [match Query.stops_of_route ?a ?b with _ => _ end] =>
      destruct (Query.stops_of_route a b) eqn:?
  end.

Ltac all_paths := io; repeat (io1; io).

Lemma register_user_change (s : Cli.setting) (w : Cli.world) :
  change (Cli.database w) (Cli.database (snd (Cli.register_user s w))).
Proof.
  destruct w as [d t c k sc st rd cl]. unfold Cli.register_user.
  all_paths; try apply change_nothing.
  all: eapply change_registered; eassumption.
Qed.

Lemma login_user_change (s : Cli.setting) (w : Cli.world) :
  Cli.database (snd (Cli.login_user s w)) = Cli.database w.
Proof.
  destruct w as [d t c k sc st rd cl]. unfold Cli.login_user.
  all_paths; reflexivity.
Qed.

Lemma view_balance_change (u : user) (s : Cli.setting) (w : Cli.world) :
  Cli.database (snd (Cli.view_balance u s w)) = Cli.database w.
Proof.
  destruct w as [d t c k sc st rd cl]. unfold Cli.view_balance.
  all_paths; reflexivity.
Qed.

Lemma add_funds_change (u : user) (s : Cli.setting) (w : Cli.world) :
  change (Cli.database w) (Cli.database (snd (Cli.add_funds u s w))).
Proof.
  destruct w as [d t c k sc st rd cl]. unfold Cli.add_funds, Cli.view_balance.
  all_paths; try apply change_nothing.
  all: eapply change_balance; eassumption.
Qed.

Lemma adjust_user_balance_change (s : Cli.setting) (w : Cli.world) :
  change (Cli.database w) (Cli.database (snd (Cli.adjust_user_balance s w))).
Proof.
  destruct w as [d t c k sc st rd cl]. unfold Cli.adjust_user_balance.
  all_paths; try apply change_nothing.
  all: eapply change_balance; eassumption.
Qed.

Lemma create_stop_change (s : Cli.setting) (w : Cli.world) :
  change (Cli.database w) (Cli.database (snd (Cli.create_stop s w))).
Proof.
  destruct w as [d t c k sc st rd cl]. unfold Cli.create_stop.
  all_paths; try apply change_nothing.
  all: eapply change_stop; eassumption.
Qed.

Lemma create_shuttle_change (s : Cli.setting) (w : Cli.world) :
  change (Cli.database w) (Cli.database (snd (Cli.create_shuttle s w))).
Proof.
  destruct w as [d t c k sc st rd cl]. unfold Cli.create_shuttle.
  all_paths; try apply change_nothing.
  all: eapply change_shuttle; eassumption.
Qed.

Lemma create_route_change (s : Cli.setting) (w : Cli.world) :
  change (Cli.database w) (Cli.database (snd (Cli.create_route s w))).
Proof.
  destruct w as [d t c k sc st rd cl]. unfold Cli.create_route.
  all_paths; try apply change_nothing.
  all: eapply change_route; eassumption.
Qed.

Lemma shows_nil (w : Cli.world) : Cli.shows [] w = w.
Proof. destruct w. unfold Cli.shows. cbn. now rewrite app_nil_r. Qed.

Lemma shows_shows (a b : list Cli.message) (w : Cli.world) :
  Cli.shows b (Cli.shows a w) = Cli.shows (a ++ b) w.
Proof. destruct w. unfold Cli.shows. cbn. now rewrite app_assoc. Qed.

Lemma for_each_says {A : Type} (l : list A) (body : A -> Cli.IO unit)
    (msg : A -> Cli.message)
    (H : forall x s w, body x s w = (Cli.Done tt, Cli.shows [msg x] w))
    (s : Cli.setting) (w : Cli.world) :
  Cli.for_each l body s w = (Cli.Done tt, Cli.shows (map msg l) w).
Proof.
  revert w. induction l as [|x l IH]; intros w; cbn [Cli.for_each map].
  - unfold Cli.ret. now rewrite shows_nil.
  - unfold Cli.bind at 1. rewrite H, IH. now rewrite shows_shows.
Qed.

Ltac says :=
  match goal with
  | |- context [Cli.for_each ?l ?b ?s0 ?w0] =>
      rewrite (for_each_says l b _ (fun _ _ _ => eq_refl) s0 w0)
  end.

Lemma add_stop_to_route_change (s : Cli.setting) (w : Cli.world) :
  change (Cli.database w) (Cli.database (snd (Cli.add_stop_to_route s w))).
Proof.
  destruct w as [d t c k sc st rd cl]. unfold Cli.add_stop_to_route.
  io. io1; io; [apply change_nothing|].
  says. io.
  destruct k as [|l1 k]; io; [apply change_nothing|].
  io1; io; [|apply change_nothing].
  io1; io; [apply change_nothing|].
  says.
  all_paths; try apply change_nothing.
  all: eapply change_route_stop; eassumption.
Qed.

Lemma changes_trans (d1 d2 d3 : db) : changes d1 d2 -> changes d2 d3 -> changes d1 d3.
Proof.
  intros H1 H2. induction H2; [exact H1|]. eapply changes_more; eauto.
Qed.

Lemma changes_one (d d' : db) : change d d' -> changes d d'.
Proof. intros H. eapply changes_more; [apply changes_none | exact H]. Qed.

Lemma engine_tap_change (name : string) (cur sh : Z) (s : Cli.setting) (w : Cli.world) :
  Cli.engine (fun e => process_rider_tap e name cur sh) s w =
  (Cli.Done tt,
   Cli.count_call
     (Cli.shows
        (map Cli.Engine
           (printed (process_rider_tap (Cli.engine_env s (Cli.calls w)) name cur sh
                       (Cli.database w))))
        (Cli.with_database
           (final (process_rider_tap (Cli.engine_env s (Cli.calls w)) name cur sh
                     (Cli.database w))) w))).
Proof.
  unfold Cli.engine.
  destruct (process_rider_tap_effect (Cli.engine_env s (Cli.calls w)) name cur sh
              (Cli.database w)) as [-> _].
  reflexivity.
Qed.

Lemma index_cases {A : Type} (l : list A) (i : Z) (s : Cli.setting) (w : Cli.world) :
  (exists x, In x l /\ Cli.index l i s w = (Cli.Done x, w)) \/
  Cli.index l i s w = (Cli.Raise Cli.IndexError, w).
Proof.
  unfold Cli.index.
  destruct (if 0 <=? i then nth_error l (Z.to_nat i)
            else if - Z.of_nat (List.length l) <=? i
                 then nth_error l (Z.to_nat (Z.of_nat (List.length l) + i))
                 else None) as [x|] eqn:E.
  - left. exists x. split; [|reflexivity].
    destruct (0 <=? i); [eapply nth_error_In; eassumption|].
    destruct (- Z.of_nat (List.length l) <=? i); [|discriminate].
    eapply nth_error_In; eassumption.
  - now right.
Qed.

Lemma driving_changes (turns : nat) (all_stops : list Query.session_stop)
    (sh : Z) (s : Cli.setting) :
  forall (idx : Z) (w : Cli.world),
    changes (Cli.database w)
      (Cli.database (snd (Cli.driving turns all_stops sh idx s w))).
Proof.
  induction turns as [|turns IH]; intros idx w; cbn [Cli.driving].
  - apply changes_none.
  - unfold Cli.bind at 1.
    destruct (index_cases all_stops idx s w) as [(x & _ & ->)| ->];
      [|apply changes_none].
    destruct w as [d t c k sc st rd cl]. io.
    destruct k as [|l k]; io; [apply changes_none|].
    destruct (String.eqb _ "next"); io.
    { eapply changes_trans; [|apply IH]. apply changes_none. }
    destruct (String.eqb _ "tap"); io.
    { destruct k as [|l2 k]; io; [apply changes_none|].
      destruct (Cli.str_strip (Cli.python s) l2) eqn:E; io.
      - eapply changes_trans; [|apply IH]. apply changes_none.
      - rewrite engine_tap_change. io.
        eapply changes_trans; [|apply IH]. cbn.
        apply changes_one. eapply change_tap.
        eapply process_rider_tap_effect. }
    destruct (String.eqb _ "end"); io.
    { unfold Cli.engine. io.
      match goal with
      | |- context [handle_end_of_shift ?e ?sh ?d] =>
          pose proof (handle_end_of_shift_effect e sh d) as S;
          destruct (raised (handle_end_of_shift e sh d)); io;
          apply changes_one; eapply change_shift; exact S
      end. }
    eapply changes_trans; [|apply IH]. apply changes_none.
Qed.

Lemma start_driver_session_changes (u : user) (s : Cli.setting) (w : Cli.world) :
  changes (Cli.database w)
    (Cli.database (snd (Cli.start_driver_session u s w))).
Proof.
  destruct w as [d t c k sc st rd cl]. unfold Cli.start_driver_session.
  io. repeat (first [says | io1]; io); try apply changes_none.
  match goal with
  | |- context [Cli.driving ?n ?l ?sh ?i ?s ?w] =>
      pose proof (driving_changes n l sh s i w) as D;
      destruct (Cli.driving n l sh i s w) as [o w'] eqn:R
  end.
  destruct w' as [? ? [] ? ? ? ? ?]; cbn in D;
    destruct o as [[]| |ex|]; io; try exact D;
    destruct ex as [| | | | |[]]; io; exact D.
Qed.

(** ** What the changes keep *)

Lemma add_to_wallet_balance_some a id d d' :
  Query.add_to_wallet_balance a id d = Some d' ->
  d' = Sql.with_users
         (map (fun u => if user_id u =? id
                        then Sql.set_wallet_balance (Sql.real (wallet_balance u + a)) u
                        else u) (users d)) d.
Proof.
  unfold Query.add_to_wallet_balance. destruct (existsb _ _); congruence.
Qed.

Lemma insert_transaction_log_some r a ty ts trip d d' :
  Sql.insert_transaction_log r a ty ts trip d = Some d' ->
  is_nan a = false /\
  d' = Sql.with_transaction_logs
         (transaction_logs d ++
            [mk_transaction_log (Sql.next_id tx_id (transaction_logs d)) r
               (Sql.real a) ty ts trip])
         d.
Proof.
  unfold Sql.insert_transaction_log. destruct (is_nan a); [discriminate|].
  intros [= <-]. split; reflexivity.
Qed.

Lemma credited_of_statements a id ty ts d d1 d2 :
  Query.add_to_wallet_balance a id d = Some d1 ->
  Sql.insert_transaction_log id a ty ts None d1 = Some d2 ->
  d2 = credited id a ty ts d.
Proof.
  intros H1 H2. apply add_to_wallet_balance_some in H1.
  apply insert_transaction_log_some in H2. destruct H2 as [_ H2].
  subst. reflexivity.
Qed.

Lemma account_rebalanced (f : user -> bool) (b : user -> float) (l : list user) :
  map account (map (fun u => if f u then Sql.set_wallet_balance (b u) u else u) l)
  = map account l.
Proof.
  rewrite map_map. apply map_ext. intros u. destruct (f u); reflexivity.
Qed.

Lemma settle_effect_accounts e trip p p' l :
  settle_effect e trip p p' l -> map account (users p') = map account (users p).
Proof.
  intros S. destruct S; cbn;
    try apply (account_rebalanced (fun u => user_id u =? _) (fun _ => _));
    reflexivity.
Qed.

Lemma loop_effect_accounts e trips p p' ls :
  loop_effect e trips p p' ls -> map account (users p') = map account (users p).
Proof.
  induction 1 as [|trip trips p p1 p2 l ls S L IH]; [reflexivity|].
  rewrite IH. eapply settle_effect_accounts; eassumption.
Qed.

Lemma tap_effect_accounts e name cur sh d d' :
  tap_effect e name cur sh d d' -> map account (users d') = map account (users d).
Proof.
  intros T. destruct T; cbn;
    try apply (account_rebalanced (fun u => user_id u =? _) (fun _ => _));
    reflexivity.
Qed.

Lemma shift_effect_accounts e sh d r :
  shift_effect e sh d r -> map account (users (final r)) = map account (users d).
Proof.
  intros S. destruct S; cbn; try reflexivity.
  eapply loop_effect_accounts; eassumption.
Qed.

Lemma change_users (d d' : db) :
  change d d' ->
  map account (users d') = map account (users d) \/
  exists name mail digest,
    users d' =
      (users d ++ [mk_user (Sql.next_id user_id (users d)) name mail digest RIDER 0])%list.
Proof.
  intros C. destruct C as [ |name mail digest d' H|a id ty ts d1 d2 H1 H2
                          |name d' H|name cap d' H|name base per_km d' H
                          |rid sid order distance d' H|e name cur sh d' T|e sh r S].
  - now left.
  - right. unfold Query.insert_user in H. destruct (existsb _ _); [discriminate|].
    injection H as <-. cbn. eauto.
  - left. rewrite (credited_of_statements _ _ _ _ _ _ _ H1 H2). cbn.
    apply (account_rebalanced (fun u => user_id u =? id)
             (fun u => Sql.real (wallet_balance u + a))).
  - left. unfold Query.insert_stop in H. destruct (existsb _ _); [discriminate|].
    injection H as <-. reflexivity.
  - left. injection H as <-. reflexivity.
  - left. unfold Query.insert_route in H.
    destruct (_ || _); [discriminate|]. injection H as <-. reflexivity.
  - left. unfold Query.insert_route_stop in H.
    destruct (is_nan _); [discriminate|]. injection H as <-. reflexivity.
  - left. eapply tap_effect_accounts; eassumption.
  - left. eapply shift_effect_accounts; eassumption.
Qed.

Lemma keeps_accounts_refl (d : db) : keeps_accounts d d.
Proof. exists []. rewrite app_nil_r. split; [reflexivity|constructor]. Qed.

Lemma keeps_accounts_trans (d1 d2 d3 : db) :
  keeps_accounts d1 d2 -> keeps_accounts d2 d3 -> keeps_accounts d1 d3.
Proof.
  intros (n1 & E1 & F1) (n2 & E2 & F2). exists (n1 ++ n2)%list. split.
  - rewrite E2, E1. now rewrite app_assoc.
  - apply Forall_app. now split.
Qed.

Lemma change_keeps_accounts (d d' : db) : change d d' -> keeps_accounts d d'.
Proof.
  intros C. destruct (change_users d d' C) as [E|(name & mail & digest & E)].
  - exists []. rewrite app_nil_r. split; [exact E|constructor].
  - exists [account (mk_user (Sql.next_id user_id (users d)) name mail digest RIDER 0)].
    split; [rewrite E, map_app; reflexivity|]. repeat constructor.
Qed.

Lemma changes_keep_accounts (d d' : db) : changes d d' -> keeps_accounts d d'.
Proof.
  induction 1 as [|d1 d2 _ IH C]; [apply keeps_accounts_refl|].
  eapply keeps_accounts_trans; [exact IH|]. now apply change_keeps_accounts.
Qed.

Lemma next_id_above {A : Type} (id : A -> Z) (rows : list A) (r : A) :
  In r rows -> id r < Sql.next_id id rows.
Proof.
  unfold Sql.next_id.
  assert (forall l m, m <= fold_left (fun m r => Z.max m (id r)) l m) as Hm.
  { induction l as [|x l IH]; intros m; cbn; [lia|].
    specialize (IH (Z.max m (id x))). lia. }
  assert (forall l m, In r l -> id r <= fold_left (fun m r => Z.max m (id r)) l m) as H.
  { induction l as [|x l IH]; intros m Hin; [contradiction|].
    destruct Hin as [E|Hin]; cbn.
    - subst. specialize (Hm l (Z.max m (id r))). lia.
    - now apply IH. }
  intros Hin. specialize (H rows 0 Hin). lia.
Qed.

Lemma account_user_ids (l l' : list user) :
  map account l' = map account l -> map user_id l' = map user_id l.
Proof.
  intros E.
  assert (forall l, map user_id l = map (fun a => fst (fst (fst (fst a)))) (map account l))
    as H by (intros l0; rewrite map_map; reflexivity).
  now rewrite (H l), (H l'), E.
Qed.

Lemma change_user_ids_unique (d d' : db) :
  change d d' -> user_ids_unique d -> user_ids_unique d'.
Proof.
  unfold user_ids_unique. intros C N.
  destruct (change_users d d' C) as [E|(name & mail & digest & E)].
  - now rewrite (account_user_ids _ _ E).
  - rewrite E, map_app. cbn [map user_id]. apply NoDup_app; [exact N|repeat constructor; intros []|].
    intros a Ha [<-|[]]. apply in_map_iff in Ha. destruct Ha as (u & Hu & Hin).
    pose proof (next_id_above user_id (users d) u Hin). lia.
Qed.

Lemma changes_user_ids_unique (d d' : db) :
  changes d d' -> user_ids_unique d -> user_ids_unique d'.
Proof.
  induction 1 as [|d1 d2 _ IH C]; [trivial|].
  intros N. eapply change_user_ids_unique; eauto.
Qed.

Lemma change_active_trips (d d' : db) :
  change d d' ->
  active_trips d' = active_trips d \/
  (exists e name cur sh, tap_effect e name cur sh d d') \/
  (exists e sh r, shift_effect e sh d r /\ d' = final r).
Proof.
  intros C. destruct C as [ |name mail digest d' H|a id ty ts d1 d2 H1 H2
                          |name d' H|name cap d' H|name base per_km d' H
                          |rid sid order distance d' H|e name cur sh d' T|e sh r S].
  - now left.
  - left. unfold Query.insert_user in H. destruct (existsb _ _); [discriminate|].
    injection H as <-. reflexivity.
  - left. rewrite (credited_of_statements _ _ _ _ _ _ _ H1 H2). reflexivity.
  - left. unfold Query.insert_stop in H. destruct (existsb _ _); [discriminate|].
    injection H as <-. reflexivity.
  - left. injection H as <-. reflexivity.
  - left. unfold Query.insert_route in H.
    destruct (_ || _); [discriminate|]. injection H as <-. reflexivity.
  - left. unfold Query.insert_route_stop in H.
    destruct (is_nan _); [discriminate|]. injection H as <-. reflexivity.
  - right; left. eauto.
  - right; right. eauto.
Qed.

Lemma change_one_active (d d' : db) : change d d' -> one_active d -> one_active d'.
Proof.
  intros C O.
  destruct (change_active_trips d d' C) as [E|[(e & name & cur & sh & T)|(e & sh & r & S & ->)]].
  - eapply same_trips_one_active; eassumption.
  - eapply tap_effect_one_active; eassumption.
  - eapply shift_effect_one_active; eassumption.
Qed.

Lemma changes_one_active (d d' : db) : changes d d' -> one_active d -> one_active d'.
Proof.
  induction 1 as [|d1 d2 _ IH C]; [trivial|].
  intros O. eapply change_one_active; eauto.
Qed.

Lemma perform_changes (op : operation) (s : Cli.setting) (w : Cli.world) :
  changes (Cli.database w) (Cli.database (snd (perform op s w))).
Proof.
  destruct op; cbn [perform].
  - apply changes_one, register_user_change.
  - unfold Cli.bind. pose proof (login_user_change s w) as L.
    destruct (Cli.login_user s w) as [[a| |ex|] w']; cbn in *;
      rewrite L; apply changes_none.
  - rewrite view_balance_change. apply changes_none.
  - apply changes_one, add_funds_change.
  - apply changes_one, adjust_user_balance_change.
  - apply changes_one, create_stop_change.
  - apply changes_one, create_shuttle_change.
  - apply changes_one, create_route_change.
  - apply changes_one, add_stop_to_route_change.
  - apply start_driver_session_changes.
Qed.

(** ** Accounts *)

Lemma insert_user_free (name mail digest : string) (r : UserRole) (d : db) :
  (forall u, In u (users d) -> username u <> name /\ email u <> mail) ->
  Query.insert_user name mail digest r d =
  Some (Sql.with_users
          (users d ++ [mk_user (Sql.next_id user_id (users d)) name mail digest r 0])%list
          d).
Proof.
  intros H. unfold Query.insert_user.
  destruct (existsb _ (users d)) eqn:E; [exfalso|reflexivity].
  apply existsb_exists in E. destruct E as (u & Hin & Hu).
  destruct (H u Hin) as [H1 H2].
  apply orb_true_iff in Hu. destruct Hu as [Hu|Hu];
    apply String.eqb_eq in Hu; contradiction.
Qed.

Lemma insert_user_taken (name mail digest : string) (r : UserRole) (d : db) (u : user) :
  In u (users d) -> username u = name \/ email u = mail ->
  Query.insert_user name mail digest r d = None.
Proof.
  intros Hin Hu. unfold Query.insert_user.
  destruct (existsb _ (users d)) eqn:E; [reflexivity|exfalso].
  assert (existsb (fun u => String.eqb (username u) name || String.eqb (email u) mail)
            (users d) = true) as E'.
  { apply existsb_exists. exists u. split; [exact Hin|].
    apply orb_true_iff. destruct Hu as [<-|<-]; [left|right]; apply String.eqb_refl. }
  congruence.
Qed.

Lemma find_app_fresh {A : Type} (p : A -> bool) (l : list A) (x : A) :
  (forall y, In y l -> p y = false) -> p x = true -> find p (l ++ [x]) = Some x.
Proof.
  intros H Hx. induction l as [|a l IH]; cbn.
  - now rewrite Hx.
  - rewrite (H a) by now left. apply IH. intros y Hy. apply H. now right.
Qed.

Ltac io_known :=
  match goal with
  | H : Cli.sqlite_fails ?s ?n = _ |- context [Cli.sqlite_fails ?s ?n] => rewrite H
  | H : ?q = Some _ |- context [?q] => rewrite H
  | H : ?q = None |- context [?q] => rewrite H
  | H : ?q = true |- context [?q] => rewrite H
  | H : ?q = false |- context [?q] => rewrite H
  end.

Ltac io_path := repeat (io; io_known); io.

(** ** Credits *)

(** When [a + b] is a number, so is [b]. *)
Lemma is_nan_add_r (a b : float) :
  is_nan (a + b) = false -> is_nan b = false.
Proof.
  intros H. destruct (is_nan b) eqn:E; [|reflexivity].
  apply FloatFacts.is_nan_spec in E.
  assert (is_nan (a + b) = true) as N.
  { apply FloatFacts.is_nan_spec. rewrite FloatAxioms.add_spec, E.
    destruct (Prim2SF a); reflexivity. }
  congruence.
Qed.

Lemma set_same_balance (u : user) : Sql.set_wallet_balance (wallet_balance u) u = u.
Proof. destruct u. reflexivity. Qed.

Lemma credited_tracks (uid : Z) (a : float) (ty : TransactionType) (ts : string)
    (d : db) :
  tracks d (credited uid a ty ts d).
Proof.
  exists [mk_transaction_log (Sql.next_id tx_id (transaction_logs d)) uid
            (Sql.real a) ty ts None].
  split; [reflexivity|]. cbn [users credited]. apply map_ext. intros u.
  unfold advance, apply_entries. cbn [filter tx_rider_id].
  rewrite (Z.eqb_sym uid (user_id u)).
  destruct (user_id u =? uid); cbn [fold_left amount];
    [now rewrite FloatFacts.real_add|].
  symmetry. apply set_same_balance.
Qed.

Lemma add_to_wallet_balance_of_row (a : float) (row : user) (d : db) :
  Sql.user_by_id (user_id row) d = Some row ->
  user_ids_unique d ->
  is_nan (wallet_balance row + a) = false ->
  Query.add_to_wallet_balance a (user_id row) d =
  Some (Sql.with_users
          (map (fun u => if user_id u =? user_id row
                         then Sql.set_wallet_balance (Sql.real (wallet_balance u + a)) u
                         else u) (users d)) d).
Proof.
  intros Hu N Hnan. unfold Query.add_to_wallet_balance.
  destruct (existsb _ (users d)) eqn:E; [exfalso|reflexivity].
  apply existsb_exists in E. destruct E as (u & Hin & Hb).
  apply andb_true_iff in Hb. destruct Hb as [Hid Hn]. apply Z.eqb_eq in Hid.
  destruct (user_by_id_some _ _ _ Hu) as [Hin' _].
  assert (u = row) as -> by (eapply NoDup_map_same; eassumption).
  congruence.
Qed.

Lemma find_map_keeps {A : Type} (p : A -> bool) (f : A -> A) (l : list A) :
  (forall x, p (f x) = p x) -> find p (map f l) = option_map f (find p l).
Proof.
  intros H. induction l as [|a l IH]; cbn; [reflexivity|].
  rewrite H. destruct (p a); [reflexivity|exact IH].
Qed.

Lemma user_by_id_credited (uid : Z) (a : float) (ty : TransactionType)
    (ts : string) (d : db) (row : user) :
  Sql.user_by_id uid d = Some row ->
  Sql.user_by_id uid (credited uid a ty ts d) =
  Some (Sql.set_wallet_balance (Sql.real (wallet_balance row + a)) row).
Proof.
  intros Hu. destruct (user_by_id_some _ _ _ Hu) as [_ Hid].
  unfold Sql.user_by_id in *. cbn [users credited].
  rewrite find_map_keeps.
  - rewrite Hu. cbn. now rewrite Hid, Z.eqb_refl.
  - intros x. destruct (user_id x =? uid) eqn:E; cbn; exact E.
Qed.

(** * The claims *)

(** C1 fails on the code.  rider1 (balance 10.00, active trip on the Campus
    Loop) taps at the stop of the Express route: the old trip is settled at
    the maximum fare 1.02 in the pending transaction and the line saying so
    is printed, the tap-on is refused for the balance 8.98 is below 9.50,
    and the function returns before [conn.commit()]: the database is left as
    it was, the old trip still ACTIVE, the balance still 10.00, the ledger
    empty. *)
Theorem forced_settlement_lost_when_tap_on_refused :
  process_rider_tap quiet "rider1" 5 1 riding_with_express =
  mk_result riding_with_express
    [ForgotToTapOff "rider1"; ChargedMaxFare 1.02 8.98;
     TappingOn "rider1"; TapOnFailed 9.5 8.98]
    None
  /\ map status (active_trips riding_with_express) = [ACTIVE]
  /\ map wallet_balance (users riding_with_express) = [0; 0; 10]%float
  /\ transaction_logs riding_with_express = [].
Proof. vm_compute. repeat split. Qed.

(** C2 fails on the code.  rider1 is riding on shuttle 1 and SQLite fails
    on the INSERT into the ledger (the statement of rank 6 of the call):
    the [except] of the loop only prints, and the final [conn.commit()]
    publishes the debit without its ledger row, the trip still ACTIVE. *)
Theorem end_of_shift_commits_partial_settlement :
  handle_end_of_shift (failing 6) 1 riding =
  mk_result (debited 3 8.98 riding)
    [EndingShift; Resolving 1; ErrorResolving 1 OperationalError] None
  /\ balance_of "rider1" riding = Some 10%float
  /\ balance_of "rider1" (final (handle_end_of_shift (failing 6) 1 riding))
     = Some 8.98%float
  /\ transaction_logs (final (handle_end_of_shift (failing 6) 1 riding)) = []
  /\ map status (active_trips (final (handle_end_of_shift (failing 6) 1 riding)))
     = [ACTIVE].
Proof. vm_compute. repeat split. Qed.



(** C4.  A forced settlement charges the fare from the tap-on stop to the
    terminal stop of the OLD trip's route, at that route's pricing, the
    terminal stop being the stop of highest [stop_order] on that route.
    On a tap at a stop of another route, whatever SQLite fails to carry
    out, the tap leaves the database as it was or debits and logs that
    amount; when SQLite carries out every statement that amount is the one
    printed.  At the end of a shift, in every database and whatever SQLite
    fails to carry out, every row added to the ledger charges that amount
    for one of the shuttle's active trips.  The balance and the amount are
    stated as the database gives them back ([Sql.real]): the amount logged
    is minus the fare as a number, and 0.0 when the fare is zero. *)
Theorem forced_settlement_charges_to_terminal_stop
    (e : env) (shuttle_id : Z) (d : db) :
  (forall (rider_username : string) (current_route_stop : Z) (rider : user)
          (current_stop tap_on terminal : route_stop) (route old_route : route)
          (trip : active_trip),
     Sql.user_by_username rider_username d = Some rider ->
     Sql.route_stop_by_id current_route_stop d = Some current_stop ->
     Sql.route_by_id (rs_route_id current_stop) d = Some route ->
     Sql.active_trip_of_rider (user_id rider) d = Some trip ->
     Sql.route_stop_by_id (tap_on_route_stop_id trip) d = Some tap_on ->
     rs_route_id tap_on <> rs_route_id current_stop ->
     Sql.last_stop_of_route (rs_route_id tap_on) d = Some terminal ->
     Sql.route_by_id (rs_route_id tap_on) d = Some old_route ->
     let charged :=
       fare (base_fare old_route) (price_per_km old_route)
         (abs (distance_from_start terminal - distance_from_start tap_on)) in
     let row :=
       mk_transaction_log (Sql.next_id tx_id (transaction_logs d)) (user_id rider)
         (Sql.real (- charged)) RIDE_PAYMENT (clock e 0) (Some (trip_id trip)) in
     let tapped :=
       process_rider_tap e rider_username current_route_stop shuttle_id d in
     (rs_route_id terminal = rs_route_id tap_on /\
      forall s, In s (route_stops d) -> rs_route_id s = rs_route_id tap_on ->
                stop_order s <= stop_order terminal) /\
     (final tapped = d \/
      transaction_logs (final tapped) = (transaction_logs d ++ [row])%list /\
      users (final tapped) =
        map (fun u => if user_id u =? user_id rider
                      then Sql.set_wallet_balance
                             (Sql.real (wallet_balance rider - charged)) u
                      else u) (users d)) /\
     (is_nan (wallet_balance rider - charged) = false ->
      (amount row =? - charged)%float = true /\
      (no_faults e ->
       In (ChargedMaxFare charged (wallet_balance rider - charged))
          (printed tapped)))) /\
  (exists entries,
     transaction_logs (final (handle_end_of_shift e shuttle_id d)) =
       (transaction_logs d ++ entries)%list /\
     Forall (fun en => exists trip,
               In trip (Sql.active_trips_on_shuttle shuttle_id d) /\
               forced_charge d trip en) entries).
Proof.
  split.
  - intros rider_username current_route_stop rider current_stop tap_on terminal
      route old_route trip Hu Hc Hr Ha Ht Hdiff Hl Ho charged row tapped.
    split; [|split].
    + destruct (last_stop_of_route_highest _ _ _ Hl) as (_ & H1 & H2). now split.
    + destruct (process_rider_tap_effect e rider_username current_route_stop
                  shuttle_id d) as [_ T].
      fold tapped in T. remember (final tapped) as d' eqn:Ed. clear Ed tapped.
      destruct T as [ | rider0 cs0 rt0 trip0 tap0 Hu0 Hc0 Hr0 Ha0 Ht0 Hn0 He0
                    | rider0 cs0 rt0 trip0 tap0 last0 old0 rider1
                        Hu0 Hc0 Hr0 Ha0 Ht0 Hn0 He0 Hl0 Ho0 Hu1 Hb0
                    | rider0 cs0 rt0 Hu0 Hc0 Hr0 Ha0 Hb0 ].
      * now left.
      * rewrite Hu in Hu0. injection Hu0 as <-.
        rewrite Hc in Hc0. injection Hc0 as <-.
        rewrite Ha in Ha0. injection Ha0 as <-.
        rewrite Ht in Ht0. injection Ht0 as <-. contradiction.
      * rewrite Hu in Hu0. injection Hu0 as <-.
        rewrite Ha in Ha0. injection Ha0 as <-.
        rewrite Ht in Ht0. injection Ht0 as <-.
        rewrite Hl in Hl0. injection Hl0 as <-.
        rewrite Ho in Ho0. injection Ho0 as <-.
        right. unfold row, charged. rewrite <- fare_of_fare. split; reflexivity.
      * rewrite Hu in Hu0. injection Hu0 as <-.
        rewrite Ha in Ha0. discriminate.
    + intros Hnan.
      pose proof (FloatFacts.is_nan_sub_opp _ _ Hnan) as Hopp.
      split; [apply FloatFacts.real_eqb; exact Hopp|]. intros Hnf.
      unfold tapped, row, charged in *. clear tapped row charged.
      rewrite <- fare_of_fare in *. unfold fare_of in *.
      assert ((tap_on_route_stop_id trip =? rs_id current_stop) = false) as Hne.
      { apply Z.eqb_neq. intros E. apply Hdiff.
        destruct (route_stop_by_id_some _ _ _ Hc) as [_ Hid].
        rewrite E, Hid, Hc in Ht. injection Ht as <-. reflexivity. }
      apply Z.eqb_neq in Hdiff.
      unfold process_rider_tap, process_rider_tap_try.
      along_path.
      repeat (exec1; reduce); try (rewrite Hnf in *; discriminate);
        cbn; tauto.
  - apply shift_effect_ledger with (e := e). apply handle_end_of_shift_effect.
Qed.

Lemma forced_settlement_charges_to_terminal_stop_witness :
  In (ChargedMaxFare 1.02 8.98)
    (printed (process_rider_tap quiet "rider1" 5 1 riding_with_link)) /\
  map amount
    (transaction_logs (final (process_rider_tap quiet "rider1" 5 1 riding_with_link)))
  = [(-1.02)%float] /\
  (exists entries,
     transaction_logs (final (handle_end_of_shift quiet 1 riding)) =
       (transaction_logs riding ++ entries)%list /\
     Forall (fun en => exists trip,
               In trip (Sql.active_trips_on_shuttle 1 riding) /\
               forced_charge riding trip en) entries) /\
  map amount (transaction_logs (final (handle_end_of_shift quiet 1 riding)))
  = [(-1.02)%float] /\
  map amount (transaction_logs (final (process_rider_tap quiet "rider1" 1 1 riding_free)))
  = [0%float] /\
  map amount (transaction_logs (final (handle_end_of_shift quiet 1 riding_free)))
  = [0%float].
Proof.
  pose proof (proj1 (forced_settlement_charges_to_terminal_stop quiet 1
                       riding_with_link)
                "rider1" 5
                (mk_user 3 "rider1" "rider1@campus.edu"
                   "e85978062768502c68bfd953d2d3793cf799b6abe697543512d8bc41bc60e210"
                   RIDER 10)
                (mk_route_stop 5 2 4 1 0) (mk_route_stop 1 1 1 1 0)
                (mk_route_stop 4 1 4 4 0x1.0cccccccccccdp+1)
                (mk_route 2 "Link" 0.75 0.25)
                (mk_route 1 "Campus Loop" 0.5 0.25)
                (mk_active_trip 1 3 1 1 "2025-01-01T08:00:00" ACTIVE)
                eq_refl eq_refl eq_refl eq_refl eq_refl
                ltac:(discriminate) eq_refl eq_refl) as (_ & _ & P).
  split; [exact (proj2 (P eq_refl) quiet_no_faults)|].
  split; [vm_compute; reflexivity|].
  split; [exact (proj2 (forced_settlement_charges_to_terminal_stop quiet 1 riding))|].
  vm_compute. repeat split.
Defined.

(** C5 as stated fails: in the database [seed_data] creates, rider1 has a
    balance of 10.0 and no ledger row. *)
Lemma seeded_balance_has_no_ledger_row : ~ balanced (seed_data empty_db).
Proof.
  intros B.
  assert (In (mk_user 3 "rider1" "rider1@campus.edu"
                "e85978062768502c68bfd953d2d3793cf799b6abe697543512d8bc41bc60e210"
                RIDER 10%float) (users (seed_data empty_db))) as Hin.
  { cbn. auto. }
  specialize (B _ Hin). vm_compute in B.
  assert (PrimFloat.eqb 10 0 = true) as E by (rewrite B; reflexivity).
  vm_compute in E. discriminate.
Qed.

(** C5, as amended.  Every committed tap, and every end-of-shift settlement
    in which SQLite carries out every statement, appends rows to the ledger
    and moves each rider's balance by exactly the rows appended for that
    rider; so it keeps every balance equal to the sum of the rider's ledger
    rows once that holds. *)
Theorem settlement_moves_balance_by_ledger_rows
    (e : env) (rider_username : string) (current_route_stop shuttle_id : Z)
    (d : db) :
  user_ids_unique d ->
  let tapped := final (process_rider_tap e rider_username current_route_stop shuttle_id d) in
  let ended := final (handle_end_of_shift e shuttle_id d) in
  tracks d tapped /\
  (balanced d -> balanced tapped) /\
  (no_faults e -> tracks d ended /\ (balanced d -> balanced ended)).
Proof.
  intros N tapped ended.
  assert (tracks d tapped) as T.
  { apply (tap_effect_tracks e rider_username current_route_stop shuttle_id);
      [apply process_rider_tap_effect | exact N]. }
  split; [exact T|]. split; [now apply tracks_balanced|].
  intros Hnf.
  assert (tracks d ended) as T'.
  { apply (shift_effect_tracks e shuttle_id d _ Hnf);
      [apply handle_end_of_shift_effect | exact N]. }
  split; [exact T' | now apply tracks_balanced].
Qed.

Lemma settlement_moves_balance_by_ledger_rows_witness :
  tracks riding (final (process_rider_tap quiet "rider1" 3 1 riding)) /\
  tracks riding (final (handle_end_of_shift quiet 1 riding)).
Proof.
  assert (user_ids_unique riding) as N.
  { unfold user_ids_unique. vm_compute.
    repeat constructor; cbn; intuition discriminate. }
  pose proof (settlement_moves_balance_by_ledger_rows quiet "rider1" 3 1 riding N)
    as (T & _ & E).
  split; [exact T | exact (proj1 (E quiet_no_faults))].
Defined.

(** C6.  If no rider has more than one ACTIVE trip, then after a tap and
    after an end of shift, whatever SQLite fails to carry out, no rider has
    more than one ACTIVE trip; in particular a trip that a tap leaves ACTIVE
    is the only ACTIVE trip of its rider. *)
Theorem one_active_trip_per_rider
    (e : env) (rider_username : string) (current_route_stop shuttle_id : Z)
    (d : db) :
  one_active d ->
  let tapped :=
    final (process_rider_tap e rider_username current_route_stop shuttle_id d) in
  one_active tapped /\
  one_active (final (handle_end_of_shift e shuttle_id d)) /\
  (forall t, In t (active_trips tapped) -> status t = ACTIVE ->
             active_trips_of (rider_id t) tapped = [t]).
Proof.
  intros O tapped.
  assert (one_active tapped) as O'
    by (eapply tap_effect_one_active; [apply process_rider_tap_effect | exact O]).
  split; [exact O'|]. split.
  - eapply shift_effect_one_active; [apply handle_end_of_shift_effect | exact O].
  - intros t Hin Hst. specialize (O' (rider_id t)). unfold active_trips_of in *.
    assert (In t (filter (Sql.is_active_of (rider_id t)) (active_trips tapped)))
      as Hf.
    { apply filter_In. split; [exact Hin|]. unfold Sql.is_active_of.
      rewrite Z.eqb_refl, Hst. reflexivity. }
    destruct (filter (Sql.is_active_of (rider_id t)) (active_trips tapped))
      as [|a [|b l]]; cbn in O', Hf.
    + contradiction.
    + destruct Hf as [->|[]]. reflexivity.
    + lia.
Qed.

Lemma one_active_trip_per_rider_witness :
  one_active (seed_data empty_db) /\
  one_active riding /\
  one_active (final (process_rider_tap quiet "rider1" 3 1 riding)) /\
  one_active (final (handle_end_of_shift quiet 1 riding)).
Proof.
  assert (one_active riding) as O.
  { intros rider. unfold active_trips_of. vm_compute active_trips.
    cbn [filter]. destruct (Sql.is_active_of rider _); cbn; lia. }
  pose proof (one_active_trip_per_rider quiet "rider1" 3 1 riding O)
    as (T & E & _).
  split; [|split; [exact O|split; [exact T | exact E]]].
  intros rider. unfold active_trips_of. vm_compute active_trips. cbn. lia.
Defined.

(** C7.  A tap at the route-stop where the rider's active trip began changes
    nothing in the database, whatever SQLite fails to carry out; when it
    fails nothing, the tap prints that the rider has already tapped on. *)
Theorem same_stop_tap_is_noop
    (e : env) (rider_username : string) (current_route_stop shuttle_id : Z)
    (d : db) (rider : user) (trip : active_trip) (current_stop : route_stop) :
  Sql.user_by_username rider_username d = Some rider ->
  Sql.active_trip_of_rider (user_id rider) d = Some trip ->
  Sql.route_stop_by_id current_route_stop d = Some current_stop ->
  tap_on_route_stop_id trip = rs_id current_stop ->
  final (process_rider_tap e rider_username current_route_stop shuttle_id d) = d /\
  (no_faults e ->
   process_rider_tap e rider_username current_route_stop shuttle_id d =
   mk_result d [AlreadyTappedOn (username rider)] None).
Proof.
  intros Hu Ha Hc Hsame. split.
  - destruct (process_rider_tap_effect e rider_username current_route_stop
                shuttle_id d) as [_ T].
    destruct T; try reflexivity; exfalso;
      repeat match goal with
        | H1 : ?q = Some _, H2 : ?q = Some _ |- _ =>
            rewrite H1 in H2; injection H2 as <-
        end; congruence.
  - intros Hnf. apply Z.eqb_eq in Hsame.
    unfold process_rider_tap, process_rider_tap_try.
    along_path.
    destruct (Sql.route_by_id (rs_route_id current_stop) d);
      destruct (Sql.route_stop_by_id (tap_on_route_stop_id trip) d);
      along_path; reflexivity.
Qed.

Lemma same_stop_tap_is_noop_witness :
  process_rider_tap quiet "rider1" 1 1 riding =
  mk_result riding [AlreadyTappedOn "rider1"] None.
Proof.
  exact (proj2 (same_stop_tap_is_noop quiet "rider1" 1 1 riding
                  (mk_user 3 "rider1" "rider1@campus.edu"
                     "e85978062768502c68bfd953d2d3793cf799b6abe697543512d8bc41bc60e210"
                     RIDER 10)
                  (mk_active_trip 1 3 1 1 "2025-01-01T08:00:00" ACTIVE)
                  (mk_route_stop 1 1 1 1 0)
                  eq_refl eq_refl eq_refl eq_refl) quiet_no_faults).
Defined.

(** C8.  For a rider without an active trip, when SQLite carries out every
    statement: a balance below the base fare of the current stop's route is
    refused and the database stays as it was; a balance of at least the
    base fare opens one ACTIVE trip at the current route-stop and changes
    neither a balance nor the ledger. *)
Theorem tap_on_requires_base_fare
    (e : env) (rider_username : string) (current_route_stop shuttle_id : Z)
    (d : db) (rider : user) (current_stop : route_stop) (route : route) :
  no_faults e ->
  Sql.user_by_username rider_username d = Some rider ->
  Sql.active_trip_of_rider (user_id rider) d = None ->
  Sql.route_stop_by_id current_route_stop d = Some current_stop ->
  Sql.route_by_id (rs_route_id current_stop) d = Some route ->
  ((wallet_balance rider <? base_fare route)%float = true ->
   process_rider_tap e rider_username current_route_stop shuttle_id d =
   mk_result d
     [TappingOn (username rider);
      TapOnFailed (base_fare route) (wallet_balance rider)] None) /\
  ((base_fare route <=? wallet_balance rider)%float = true ->
   process_rider_tap e rider_username current_route_stop shuttle_id d =
   mk_result
     (mk_db (users d) (shuttles d) (stops d) (routes d) (route_stops d)
        (active_trips d ++
           [mk_active_trip (Sql.next_id trip_id (active_trips d))
              (user_id rider) shuttle_id (rs_id current_stop) (clock e 0)
              ACTIVE])
        (transaction_logs d))
     [TappingOn (username rider); TapOnSuccessful] None).
Proof.
  intros Hnf Hu Ha Hc Hr. split; intros Hb.
  - unfold process_rider_tap, process_rider_tap_try. along_path. reflexivity.
  - apply FloatFacts.leb_not_ltb in Hb.
    unfold process_rider_tap, process_rider_tap_try. along_path. reflexivity.
Qed.

Lemma tap_on_requires_base_fare_witness :
  process_rider_tap quiet "rider1" 1 1 (seed_data empty_db) =
  mk_result (opened 3 1 1 "2025-01-01T08:00:00" (seed_data empty_db))
    [TappingOn "rider1"; TapOnSuccessful] None.
Proof.
  exact (proj2 (tap_on_requires_base_fare quiet "rider1" 1 1
                  (seed_data empty_db)
                  (mk_user 3 "rider1" "rider1@campus.edu"
                     "e85978062768502c68bfd953d2d3793cf799b6abe697543512d8bc41bc60e210"
                     RIDER 10)
                  (mk_route_stop 1 1 1 1 0)
                  (mk_route 1 "Campus Loop" 0.5 0.25)
                  quiet_no_faults eq_refl eq_refl eq_refl eq_refl) eq_refl).
Defined.



(** The turn of the first trip fails on its first statement; the second
    trip is settled all the same, and committed. *)
Example second_trip_settled_after_first_fails :
  printed (handle_end_of_shift (failing 1) 1 both_riding) =
    [EndingShift; Resolving 2;
     ErrorResolving 1 OperationalError; AutoCompletedTrip "rider1" 1.02] /\
  map status (active_trips (final (handle_end_of_shift (failing 1) 1 both_riding)))
  = [ACTIVE; AUTO_COMPLETED].
Proof. vm_compute. split; reflexivity. Qed.

(** C10.  Neither the tap-off nor the forced settlement looks at the funds:
    rider2, with a balance of 0.50 and riding from the Library, is left at
    -0.38 by a tap-off at the Dorm Quad and at -0.52 by the end of the
    shift, both committed with their ledger row. *)
Theorem settlement_can_overdraw :
  balance_of "rider2" rider2_riding = Some 0.5%float /\
  (let tapped := final (process_rider_tap quiet "rider2" 3 1 rider2_riding) in
   exists b, balance_of "rider2" tapped = Some b /\ (b <? 0)%float = true /\
             map status (active_trips tapped) = [COMPLETED] /\
             map amount (transaction_logs tapped) = [0.5; -0.88]%float) /\
  (let ended := final (handle_end_of_shift quiet 1 rider2_riding) in
   exists b, balance_of "rider2" ended = Some b /\ (b <? 0)%float = true /\
             map status (active_trips ended) = [AUTO_COMPLETED] /\
             map amount (transaction_logs ended) = [0.5; -1.02]%float).
Proof.
  split; [vm_compute; reflexivity|]. split.
  - eexists. split; [vm_compute; reflexivity|]. vm_compute. repeat split.
  - eexists. split; [vm_compute; reflexivity|]. vm_compute. repeat split.
Qed.

(** * Further properties of the program *)

(** ** The engine *)

(** X1.  Whatever SQLite fails to carry out, a tap lets no exception
    through and leaves the database either as it was or with all the
    writes of one outcome: a tap-off (the debit, the ledger row and the
    trip COMPLETED), a forced settlement (the debit, the ledger row and the
    old trip AUTO_COMPLETED) together with the new trip, or a new trip. *)
Theorem tap_is_all_or_nothing
    (e : env) (rider_username : string) (current_route_stop shuttle_id : Z)
    (d : db) :
  let tapped := process_rider_tap e rider_username current_route_stop shuttle_id d in
  raised tapped = None /\
  (final tapped = d \/
   (exists rider trip charged ts,
      Sql.user_by_username rider_username d = Some rider /\
      Sql.active_trip_of_rider (user_id rider) d = Some trip /\
      final tapped =
        settled (user_id rider) (wallet_balance rider - charged) charged ts
          (trip_id trip) COMPLETED d) \/
   (exists rider trip charged ts ts',
      Sql.user_by_username rider_username d = Some rider /\
      Sql.active_trip_of_rider (user_id rider) d = Some trip /\
      final tapped =
        opened (user_id rider) shuttle_id current_route_stop ts'
          (settled (user_id rider) (wallet_balance rider - charged) charged ts
             (trip_id trip) AUTO_COMPLETED d)) \/
   (exists rider ts,
      Sql.user_by_username rider_username d = Some rider /\
      Sql.active_trip_of_rider (user_id rider) d = None /\
      final tapped = opened (user_id rider) shuttle_id current_route_stop ts d)).
Proof.
  intros tapped.
  destruct (process_rider_tap_effect e rider_username current_route_stop
              shuttle_id d) as [R T].
  fold tapped in R, T. split; [exact R|].
  destruct T as [ | rider cs route trip tp Hu Hc Hr Ha Ht Hn He
                  | rider cs route trip tp lst old rider' Hu Hc Hr Ha Ht Hn He Hl Ho Hu' Hb
                  | rider cs route Hu Hc Hr Ha Hb ].
  - now left.
  - right; left. eauto 10.
  - right; right; left.
    destruct (user_by_id_some _ _ _ Hu') as [_ ->].
    destruct (route_stop_by_id_some _ _ _ Hc) as [_ ->].
    eauto 10.
  - right; right; right.
    destruct (route_stop_by_id_some _ _ _ Hc) as [_ ->].
    eauto 10.
Qed.

(** X2.  A tap by a username that is not in the table changes nothing,
    whatever SQLite fails to carry out; when the SELECT is carried out the
    tap prints that the rider is not found, and nothing else. *)
Theorem tap_by_unknown_rider_changes_nothing
    (e : env) (rider_username : string) (current_route_stop shuttle_id : Z)
    (d : db) :
  Sql.user_by_username rider_username d = None ->
  let tapped := process_rider_tap e rider_username current_route_stop shuttle_id d in
  final tapped = d /\
  (fails e 0 = false -> printed tapped = [RiderNotFound rider_username]).
Proof.
  intros Hu tapped. split.
  - destruct (process_rider_tap_effect e rider_username current_route_stop
                shuttle_id d) as [_ T].
    fold tapped in T. destruct T; congruence.
  - intros F. unfold tapped, process_rider_tap, process_rider_tap_try.
    reduce. rewrite F. reduce. rewrite Hu. reflexivity.
Qed.

Lemma tap_by_unknown_rider_changes_nothing_witness :
  final (process_rider_tap quiet "nobody" 1 1 riding) = riding /\
  printed (process_rider_tap quiet "nobody" 1 1 riding) = [RiderNotFound "nobody"].
Proof.
  destruct (tap_by_unknown_rider_changes_nothing quiet "nobody" 1 1 riding eq_refl)
    as [F P].
  split; [exact F | exact (P eq_refl)].
Defined.

(** X3.  A tap at a route-stop that is not in the table changes nothing,
    whatever SQLite fails to carry out: reading a column of the missing row
    raises a TypeError, which the function catches, prints and answers by a
    rollback. *)
Theorem tap_at_unknown_stop_is_rolled_back
    (e : env) (rider_username : string) (current_route_stop shuttle_id : Z)
    (d : db) (rider : user) :
  Sql.user_by_username rider_username d = Some rider ->
  Sql.route_stop_by_id current_route_stop d = None ->
  let tapped := process_rider_tap e rider_username current_route_stop shuttle_id d in
  final tapped = d /\
  (no_faults e -> printed tapped = [AnErrorOccurred TypeError]).
Proof.
  intros Hu Hc tapped. split.
  - destruct (process_rider_tap_effect e rider_username current_route_stop
                shuttle_id d) as [_ T].
    fold tapped in T. destruct T; congruence.
  - intros Hnf. unfold tapped, process_rider_tap, process_rider_tap_try.
    along_path. reflexivity.
Qed.

Lemma tap_at_unknown_stop_is_rolled_back_witness :
  final (process_rider_tap quiet "rider1" 99 1 riding) = riding /\
  printed (process_rider_tap quiet "rider1" 99 1 riding) = [AnErrorOccurred TypeError].
Proof.
  destruct (tap_at_unknown_stop_is_rolled_back quiet "rider1" 99 1 riding rider1
              eq_refl eq_refl) as [F P].
  split; [exact F | exact (P quiet_no_faults)].
Defined.

(** X4.  When SQLite carries out every statement, no rider has two ACTIVE
    trips, and nothing stands in the way of settling the ACTIVE trips of
    the shuttle, an end of shift lets no exception through and leaves no
    trip ACTIVE on the shuttle. *)
Theorem end_of_shift_leaves_no_active_trip (e : env) (shuttle_id' : Z) (d : db) :
  no_faults e ->
  one_active d ->
  (forall trip, In trip (Sql.active_trips_on_shuttle shuttle_id' d) ->
                settleable d trip) ->
  let ended := handle_end_of_shift e shuttle_id' d in
  raised ended = None /\
  Sql.active_trips_on_shuttle shuttle_id' (final ended) = [].
Proof.
  intros Hnf O Hs ended.
  pose proof (handle_end_of_shift_effect e shuttle_id' d) as S.
  fold ended in S.
  destruct S as [F|F E|p ls F NE L|p ls n F NE L F'];
    try (rewrite Hnf in *; discriminate).
  - split; [reflexivity|exact E].
  - split; [reflexivity|]. cbn [final].
    destruct (Sql.active_trips_on_shuttle shuttle_id' p) as [|t ts] eqn:E;
      [reflexivity|exfalso].
    assert (In t (Sql.active_trips_on_shuttle shuttle_id' p)) as Hin
      by (rewrite E; now left).
    apply filter_In in Hin. destruct Hin as [Hin Hon].
    assert (status t = ACTIVE) as Hst.
    { unfold Sql.is_active_on in Hon. apply andb_true_iff in Hon.
      destruct (status t); try reflexivity; destruct Hon; discriminate. }
    destruct (loop_effect_rows _ _ _ _ _ t L Hin) as [C|Hd]; [congruence|].
    assert (In t (Sql.active_trips_on_shuttle shuttle_id' d)) as Hl
      by (apply filter_In; auto).
    destruct (in_split _ _ Hl) as (before & after & Esplit).
    assert (settled_in t p) as [Hall _].
    { rewrite Esplit in L.
      eapply loop_effect_settles; [exact Hnf | exact L | | apply Hs; exact Hl].
      intros other Ho. eapply one_active_distinct_riders; eassumption. }
    specialize (Hall t Hin eq_refl). congruence.
Qed.

Lemma end_of_shift_leaves_no_active_trip_witness :
  Sql.active_trips_on_shuttle 1 both_riding <> [] /\
  Sql.active_trips_on_shuttle 1 (final (handle_end_of_shift quiet 1 both_riding)) = [].
Proof.
  split; [vm_compute; discriminate|].
  refine (proj2 (end_of_shift_leaves_no_active_trip quiet 1 both_riding
                   quiet_no_faults _ _)).
  - unfold both_riding, rider2_riding.
    repeat (eapply tap_effect_one_active; [apply process_rider_tap_effect|]).
    intros rider. vm_compute. lia.
  - intros trip Hin.
    assert (Sql.active_trips_on_shuttle 1 both_riding =
            [mk_active_trip 1 4 1 1 "2025-01-01T08:00:00" ACTIVE;
             mk_active_trip 2 3 1 1 "2025-01-01T08:00:00" ACTIVE]) as E
      by (vm_compute; reflexivity).
    rewrite E in Hin. destruct Hin as [<-|[<-|[]]].
    + exists (mk_user 4 "rider2" "rider2@campus.edu"
                "e85978062768502c68bfd953d2d3793cf799b6abe697543512d8bc41bc60e210"
                RIDER 0.5),
        (mk_route_stop 1 1 1 1 0), (mk_route 1 "Campus Loop" 0.5 0.25),
        (mk_route_stop 4 1 4 4 0x1.0cccccccccccdp+1).
      vm_compute. repeat split.
    + exists rider1,
        (mk_route_stop 1 1 1 1 0), (mk_route 1 "Campus Loop" 0.5 0.25),
        (mk_route_stop 4 1 4 4 0x1.0cccccccccccdp+1).
      vm_compute. repeat split.
Defined.

(** ** What every function of the program keeps *)

(** X5.  No function of the program removes a user or changes the id, the
    name, the email, the password hash or the role of one, whatever is
    typed and whatever SQLite fails to carry out; the users it adds are
    riders. *)
Theorem every_operation_keeps_accounts
    (op : operation) (s : Cli.setting) (w : Cli.world) :
  keeps_accounts (Cli.database w) (Cli.database (snd (perform op s w))).
Proof. apply changes_keep_accounts, perform_changes. Qed.

(** X6.  Every function of the program keeps the two conditions under
    which the settlements were studied, whatever is typed and whatever
    SQLite fails to carry out: no rider has two ACTIVE trips, and no two
    users have the same id. *)
Theorem every_operation_keeps_the_invariants
    (op : operation) (s : Cli.setting) (w : Cli.world) :
  (one_active (Cli.database w) ->
   one_active (Cli.database (snd (perform op s w)))) /\
  (user_ids_unique (Cli.database w) ->
   user_ids_unique (Cli.database (snd (perform op s w)))).
Proof.
  split; intros H.
  - eapply changes_one_active; [apply perform_changes | exact H].
  - eapply changes_user_ids_unique; [apply perform_changes | exact H].
Qed.

Lemma every_operation_keeps_the_invariants_witness :
  let typed := ["1"; "1"; "tap"; "rider1"; "next"; "tap"; "rider1"; "end"] in
  let d := Cli.database
             (snd (perform (DriverSession driver1) calm
                     (start (seed_data empty_db) typed))) in
  one_active d /\ user_ids_unique d /\
  map status (active_trips d) = [COMPLETED].
Proof.
  intros typed d.
  destruct (every_operation_keeps_the_invariants (DriverSession driver1) calm
              (start (seed_data empty_db) typed)) as [O U].
  split; [|split].
  - apply O. intros rider. vm_compute. lia.
  - apply U. unfold user_ids_unique. vm_compute.
    repeat constructor; cbn; intuition discriminate.
  - vm_compute. reflexivity.
Defined.

(** ** Accounts *)

(** X7.  When SQLite carries out its statements, [register_user] ends
    normally and does one of three things.  If the two passwords typed
    differ once stripped, nothing changes.  If they agree and a user has
    the name or the email typed, nothing changes and the refusal of SQLite
    is printed.  Otherwise one user is added: a Rider with the next id, the
    name and the email typed, the digest of the password, and the balance
    0.0. *)
Theorem register_user_creates_a_rider
    (s : Cli.setting) (d : db) (name mail pw pw' : string) (rest : list string) :
  Cli.sqlite_fails s 0 = false ->
  Cli.sqlite_fails s 1 = false ->
  let py := Cli.python s in
  let registered :=
    Cli.register_user s (start d (name :: mail :: pw :: pw' :: rest)) in
  let rider :=
    mk_user (Sql.next_id user_id (users d)) (Cli.str_strip py name)
      (Cli.str_strip py mail) (Cli.sha256_hexdigest py (Cli.str_strip py pw))
      RIDER 0 in
  fst registered = Cli.Done tt /\
  (Cli.str_strip py pw <> Cli.str_strip py pw' ->
   Cli.database (snd registered) = d) /\
  (Cli.str_strip py pw = Cli.str_strip py pw' ->
   (exists u, In u (users d) /\
              (username u = Cli.str_strip py name \/
               email u = Cli.str_strip py mail)) ->
   Cli.database (snd registered) = d /\
   In (Cli.Say "Error: Username or email already exists. {e}"
         [Cli.Exc (Cli.Exn IntegrityError)])
      (Cli.screen (snd registered))) /\
  (Cli.str_strip py pw = Cli.str_strip py pw' ->
   (forall u, In u (users d) ->
              username u <> Cli.str_strip py name /\
              email u <> Cli.str_strip py mail) ->
   Cli.database (snd registered) = Sql.with_users (users d ++ [rider]) d).
Proof.
  intros F0 F1 py registered rider.
  unfold registered, rider, py, Cli.register_user.
  destruct (String.eqb (Cli.str_strip (Cli.python s) pw)
              (Cli.str_strip (Cli.python s) pw')) eqn:E.
  - pose proof E as E'. apply String.eqb_eq in E'.
    destruct (Query.insert_user (Cli.str_strip (Cli.python s) name)
                (Cli.str_strip (Cli.python s) mail)
                (Cli.sha256_hexdigest (Cli.python s) (Cli.str_strip (Cli.python s) pw))
                RIDER d) as [d'|] eqn:I.
    + io_path. split; [reflexivity|]. split; [congruence|]. split.
      * intros _ (u & Hin & Hu).
        rewrite (insert_user_taken _ _ _ _ _ u Hin Hu) in I. discriminate.
      * intros _ H. rewrite (insert_user_free _ _ _ _ _ H) in I. congruence.
    + io_path. split; [reflexivity|]. split; [congruence|]. split.
      * intros _ _. split; [reflexivity|]. apply in_or_app. right. now left.
      * intros _ H. rewrite (insert_user_free _ _ _ _ _ H) in I. discriminate.
  - pose proof E as N. apply String.eqb_neq in N.
    io_path. split; [reflexivity|]. split; [reflexivity|].
    split; intros; contradiction.
Qed.

Lemma register_user_creates_a_rider_witness :
  let d := seed_data empty_db in
  let added :=
    Cli.database
      (snd (Cli.register_user calm
              (start d [" rider2 "; "rider2@campus.edu"; "secret"; "secret "]))) in
  let refused :=
    Cli.database
      (snd (Cli.register_user calm
              (start d ["rider1"; "other@campus.edu"; "secret"; "secret"]))) in
  users added =
    (users d ++
       [mk_user 4 "rider2" "rider2@campus.edu"
          "2bb80d537b1da3e38bd30361aa855686bde0eacd7162fef6a25fe97bf527a25b"
          RIDER 0])%list /\
  refused = d.
Proof.
  intros d added refused. split.
  - destruct (register_user_creates_a_rider calm d " rider2 " "rider2@campus.edu"
                "secret" "secret " [] eq_refl eq_refl) as (_ & _ & _ & H).
    unfold added. rewrite H.
    + vm_compute. reflexivity.
    + vm_compute. reflexivity.
    + intros u Hin. vm_compute in Hin.
      destruct Hin as [<-|[<-|[<-|[]]]]; vm_compute; split; discriminate.
  - destruct (register_user_creates_a_rider calm d "rider1" "other@campus.edu"
                "secret" "secret" [] eq_refl eq_refl) as (_ & _ & H & _).
    apply H; [vm_compute; reflexivity|]. exists rider1.
    split; [vm_compute; tauto|]. left. vm_compute. reflexivity.
Defined.

(** X8.  [login_user] never changes the database, and the user it returns
    is the row of the name typed, whose stored hash is the digest of the
    password typed, whatever SQLite fails to carry out.  When SQLite
    carries out the SELECT, it returns that row exactly when there is one
    and the digests agree, and [None] otherwise. *)
Theorem login_user_checks_the_password
    (s : Cli.setting) (d : db) (typed : list string) :
  let py := Cli.python s in
  let logged_in := Cli.login_user s (start d typed) in
  Cli.database (snd logged_in) = d /\
  (forall u, fst logged_in = Cli.Done (Some u) ->
     exists name pw rest,
       typed = name :: pw :: rest /\
       Sql.user_by_username (Cli.str_strip py name) d = Some u /\
       password_hash u = Cli.sha256_hexdigest py (Cli.str_strip py pw)) /\
  (Cli.sqlite_fails s 0 = false ->
   forall name pw rest, typed = name :: pw :: rest ->
     fst logged_in =
       Cli.Done
         match Sql.user_by_username (Cli.str_strip py name) d with
         | Some u =>
             if String.eqb (password_hash u)
                  (Cli.sha256_hexdigest py (Cli.str_strip py pw))
             then Some u else None
         | None => None
         end).
Proof.
  intros py logged_in. unfold logged_in, py. split; [|split].
  - apply (login_user_change s (start d typed)).
  - intros u. unfold Cli.login_user.
    destruct typed as [|name [|pw rest]]; io; try discriminate.
    destruct (Cli.sqlite_fails s 0); io; [discriminate|].
    destruct (Sql.user_by_username _ d) as [u'|] eqn:Hu; io; [|discriminate].
    destruct (String.eqb (password_hash u') _) eqn:Hp; io; [|discriminate].
    intros [= <-]. exists name, pw, rest. repeat split; trivial.
    now apply String.eqb_eq.
  - intros F name pw rest ->. unfold Cli.login_user. io. rewrite F. io.
    destruct (Sql.user_by_username _ d) as [u'|]; io; [|reflexivity].
    destruct (String.eqb (password_hash u') _); reflexivity.
Qed.

Lemma login_user_checks_the_password_witness :
  let d := seed_data empty_db in
  fst (Cli.login_user calm (start d ["rider1"; "rider123"])) = Cli.Done (Some rider1) /\
  fst (Cli.login_user calm (start d ["rider1"; "driver123"])) = Cli.Done None /\
  fst (Cli.login_user calm (start d ["rider9"; "rider123"])) = Cli.Done None.
Proof.
  intros d. split; [|split].
  - destruct (login_user_checks_the_password calm d ["rider1"; "rider123"])
      as (_ & _ & H).
    rewrite (H eq_refl "rider1" "rider123" [] eq_refl). vm_compute. reflexivity.
  - destruct (login_user_checks_the_password calm d ["rider1"; "driver123"])
      as (_ & _ & H).
    rewrite (H eq_refl "rider1" "driver123" [] eq_refl). vm_compute. reflexivity.
  - destruct (login_user_checks_the_password calm d ["rider9"; "rider123"])
      as (_ & _ & H).
    rewrite (H eq_refl "rider9" "rider123" [] eq_refl). vm_compute. reflexivity.
Defined.

(** X9.  A rider who has just registered can log in: when no user has the
    name or the email typed and SQLite carries out the statements, a login
    with the same name and password, read by the same library, returns the
    row that the registration added. *)
Theorem registered_rider_can_log_in
    (s s' : Cli.setting) (d : db) (name mail pw : string)
    (rest rest' : list string) :
  Cli.python s' = Cli.python s ->
  Cli.sqlite_fails s 0 = false ->
  Cli.sqlite_fails s 1 = false ->
  Cli.sqlite_fails s' 0 = false ->
  let py := Cli.python s in
  (forall u, In u (users d) ->
             username u <> Cli.str_strip py name /\
             email u <> Cli.str_strip py mail) ->
  let registered :=
    Cli.database
      (snd (Cli.register_user s (start d (name :: mail :: pw :: pw :: rest)))) in
  fst (Cli.login_user s' (start registered (name :: pw :: rest'))) =
  Cli.Done
    (Some (mk_user (Sql.next_id user_id (users d)) (Cli.str_strip py name)
             (Cli.str_strip py mail)
             (Cli.sha256_hexdigest py (Cli.str_strip py pw)) RIDER 0)).
Proof.
  intros Hpy F0 F1 F0' py Hfree registered. subst py.
  assert (registered =
          Sql.with_users
            (users d ++
               [mk_user (Sql.next_id user_id (users d))
                  (Cli.str_strip (Cli.python s) name)
                  (Cli.str_strip (Cli.python s) mail)
                  (Cli.sha256_hexdigest (Cli.python s)
                     (Cli.str_strip (Cli.python s) pw)) RIDER 0]) d) as ->.
  { unfold registered, Cli.register_user. io.
    rewrite String.eqb_refl. io. rewrite F0. io.
    rewrite (insert_user_free _ _ _ _ _ Hfree). io. rewrite F1. io.
    reflexivity. }
  unfold Cli.login_user. io. rewrite F0'. io. rewrite Hpy.
  unfold Sql.user_by_username. cbn [users Sql.with_users].
  rewrite find_app_fresh.
  - io. cbn [password_hash]. rewrite Hpy, String.eqb_refl. io. reflexivity.
  - intros y Hy. apply String.eqb_neq. apply (Hfree y Hy).
  - apply String.eqb_refl.
Qed.

Lemma registered_rider_can_log_in_witness :
  let d := seed_data empty_db in
  let registered :=
    Cli.database
      (snd (Cli.register_user calm
              (start d ["rider2"; "rider2@campus.edu"; "secret"; "secret"]))) in
  fst (Cli.login_user calm (start registered ["rider2"; "secret"])) =
  Cli.Done
    (Some (mk_user 4 "rider2" "rider2@campus.edu"
             "2bb80d537b1da3e38bd30361aa855686bde0eacd7162fef6a25fe97bf527a25b"
             RIDER 0)).
Proof.
  intros d registered. unfold registered.
  rewrite (registered_rider_can_log_in calm calm d "rider2" "rider2@campus.edu"
             "secret" [] [] eq_refl eq_refl eq_refl eq_refl).
  - vm_compute. reflexivity.
  - intros u Hin. vm_compute in Hin.
    destruct Hin as [<-|[<-|[<-|[]]]]; vm_compute; split; discriminate.
Defined.

(** ** The wallet *)

(** X10.  [add_funds] does not end normally when it refuses the amount:
    an amount that is not a number, an amount that is zero or negative and
    the end of the input print their line and change nothing, and then the
    [finally] clause reads [conn], which is not bound yet, so the call
    raises [UnboundLocalError] to the menu that made it. *)
Theorem add_funds_refusal_raises
    (s : Cli.setting) (u : user) (d : db) (l : string) (rest : list string) :
  let py := Cli.python s in
  let refused := Cli.add_funds u s (start d (l :: rest)) in
  let at_end := Cli.add_funds u s (start d []) in
  (Cli.float_of_str py l = None ->
   fst refused = Cli.Raise Cli.UnboundLocalError /\
   Cli.database (snd refused) = d /\
   Cli.screen (snd refused) =
     [Cli.Say "\n--- Add Funds ---" []; Cli.Ask "Enter amount to add: $";
      Cli.Say "Invalid amount. Please enter a number." []]) /\
  (forall a, Cli.float_of_str py l = Some a -> (a <=? 0)%float = true ->
   fst refused = Cli.Raise Cli.UnboundLocalError /\
   Cli.database (snd refused) = d /\
   Cli.screen (snd refused) =
     [Cli.Say "\n--- Add Funds ---" []; Cli.Ask "Enter amount to add: $";
      Cli.Say "Amount must be positive." []]) /\
  (fst at_end = Cli.Raise Cli.UnboundLocalError /\
   Cli.database (snd at_end) = d /\
   Cli.screen (snd at_end) =
     [Cli.Say "\n--- Add Funds ---" []; Cli.Ask "Enter amount to add: $";
      Cli.Say "An error occurred: {e}" [Cli.Exc Cli.EOFError]]).
Proof.
  intros py refused at_end. unfold refused, at_end, py, Cli.add_funds.
  split; [|split].
  - intros H. io_path. split; [|split]; reflexivity.
  - intros a H L. io_path. split; [|split]; reflexivity.
  - io. split; [|split]; reflexivity.
Qed.

Lemma add_funds_refusal_raises_witness :
  let d := seed_data empty_db in
  fst (Cli.add_funds rider1 calm (start d ["ten"])) = Cli.Raise Cli.UnboundLocalError /\
  fst (Cli.add_funds rider1 calm (start d ["-5"])) = Cli.Raise Cli.UnboundLocalError /\
  fst (Cli.add_funds rider1 calm (start d ["0"])) = Cli.Raise Cli.UnboundLocalError.
Proof.
  intros d. split; [|split].
  - exact (proj1 (proj1 (add_funds_refusal_raises calm rider1 d "ten" []) eq_refl)).
  - exact (proj1 (proj1 (proj2 (add_funds_refusal_raises calm rider1 d "-5" []))
                    (-5)%float eq_refl eq_refl)).
  - exact (proj1 (proj1 (proj2 (add_funds_refusal_raises calm rider1 d "0" []))
                    0%float eq_refl eq_refl)).
Defined.

(** X11.  Whatever is typed and whatever SQLite fails to carry out,
    [add_funds] leaves the database as it was or with both its writes: the
    amount, which is above zero, added to the balance of the user and one
    AddFunds row of that amount in the ledger.  So it moves every balance
    by the ledger rows it appends; and when it prints that the amount was
    added, both writes are committed. *)
Theorem add_funds_is_all_or_nothing
    (s : Cli.setting) (u : user) (d : db) (typed : list string) :
  let added := Cli.add_funds u s (start d typed) in
  let d' := Cli.database (snd added) in
  (d' = d \/
   exists a, (a <=? 0)%float = false /\
             d' = add_funds (user_id u) a (Cli.wall_clock s 0) d) /\
  tracks d d' /\
  (forall a,
     In (Cli.Say "${amount:.2f} successfully added." [Cli.Real a])
        (Cli.screen (snd added)) ->
     d' = add_funds (user_id u) a (Cli.wall_clock s 0) d).
Proof.
  intros added d'.
  assert (forall a d1 d2,
            Query.add_to_wallet_balance a (user_id u) d = Some d1 ->
            Sql.insert_transaction_log (user_id u) a ADD_FUNDS
              (Cli.wall_clock s 0) None d1 = Some d2 ->
            d2 = add_funds (user_id u) a (Cli.wall_clock s 0) d) as K.
  { intros a d1 d2 H1 H2.
    rewrite (credited_of_statements _ _ _ _ _ _ _ H1 H2). reflexivity. }
  assert ((d' = d \/
           exists a, (a <=? 0)%float = false /\
                     d' = add_funds (user_id u) a (Cli.wall_clock s 0) d) /\
          (forall a,
             In (Cli.Say "${amount:.2f} successfully added." [Cli.Real a])
                (Cli.screen (snd added)) ->
             d' = add_funds (user_id u) a (Cli.wall_clock s 0) d)) as [H1 H2].
  { unfold d', added, Cli.add_funds, Cli.view_balance.
    all_paths;
      (split;
       [ first [ now left
               | right; eexists; split; [eassumption|]; eapply K; eassumption ]
       | intros a Hin; cbn in Hin;
         repeat match goal with
           | H : _ \/ _ |- _ => destruct H
           | H : False |- _ => destruct H
           | H : Cli.Say _ _ = Cli.Say _ _ |- _ => inversion H; clear H; subst
           | H : Cli.Ask _ = Cli.Say _ _ |- _ => discriminate H
           end;
         try discriminate; eapply K; eassumption ]). }
  split; [exact H1|]. split; [|exact H2].
  destruct H1 as [->|(a & _ & ->)]; [apply tracks_refl|].
  apply (credited_tracks (user_id u) a ADD_FUNDS).
Qed.

Lemma add_funds_is_all_or_nothing_witness :
  let d := seed_data empty_db in
  let added := Cli.add_funds rider1 calm (start d ["5"]) in
  Cli.database (snd added) = add_funds 3 5 "2025-01-01T09:00:00" d /\
  balance_of "rider1" (Cli.database (snd added)) = Some 15%float.
Proof.
  intros d added.
  assert (Cli.database (snd added) = add_funds 3 5 "2025-01-01T09:00:00" d) as E.
  { apply (proj2 (proj2 (add_funds_is_all_or_nothing calm rider1 d ["5"])) 5%float).
    vm_compute. tauto. }
  split; [exact E|]. rewrite E. vm_compute. reflexivity.
Defined.

(** X12.  When SQLite carries out every statement, [add_funds] adds an
    amount above zero to the balance that the database holds for the user,
    not to the balance of the row read at login; it appends the AddFunds
    row, prints that the amount was added and shows the new balance read
    back from the database. *)
Theorem add_funds_adds_to_the_stored_balance
    (s : Cli.setting) (u row : user) (d : db) (l : string) (rest : list string)
    (a : float) :
  (forall n, Cli.sqlite_fails s n = false) ->
  Cli.float_of_str (Cli.python s) l = Some a ->
  (a <=? 0)%float = false ->
  Sql.user_by_id (user_id u) d = Some row ->
  user_ids_unique d ->
  is_nan (wallet_balance row + a) = false ->
  let added := Cli.add_funds u s (start d (l :: rest)) in
  fst added = Cli.Done tt /\
  Cli.database (snd added) = add_funds (user_id u) a (Cli.wall_clock s 0) d /\
  Sql.user_by_id (user_id u) (Cli.database (snd added)) =
    Some (Sql.set_wallet_balance (wallet_balance row + a) row) /\
  Cli.screen (snd added) =
    [Cli.Say "\n--- Add Funds ---" []; Cli.Ask "Enter amount to add: $";
     Cli.Say "${amount:.2f} successfully added." [Cli.Real a];
     Cli.Say "\nYour current wallet balance is: ${balance['wallet_balance']:.2f}"
       [Cli.Real (wallet_balance row + a)]] /\
  Cli.keyboard (snd added) = rest.
Proof.
  intros F Hf Ha Hu N Hnan added.
  destruct (user_by_id_some _ _ _ Hu) as [_ Hid].
  pose proof (add_to_wallet_balance_of_row a row d) as W.
  rewrite Hid in W. specialize (W Hu N Hnan).
  pose proof (is_nan_add_r _ _ Hnan) as Hna.
  pose proof (user_by_id_credited (user_id u) a ADD_FUNDS (Cli.wall_clock s 0) d row Hu)
    as V.
  rewrite (FloatFacts.real_add_nonzero _ _ (FloatFacts.above_zero_nonzero _ Ha)) in V.
  unfold added, Cli.add_funds, Cli.view_balance. io. rewrite Hf. io. rewrite Ha. io.
  rewrite (F 0%nat). io. rewrite W. io. rewrite (F 1%nat). io.
  unfold Sql.insert_transaction_log. rewrite Hna. io. rewrite (F 2%nat). io.
  rewrite (F 3%nat). io.
  change (Sql.with_transaction_logs _ _)
    with (credited (user_id u) a ADD_FUNDS (Cli.wall_clock s 0) d).
  rewrite V. io. split; [reflexivity|]. split; [reflexivity|].
  split; [exact V|]. split; reflexivity.
Qed.

Lemma add_funds_adds_to_the_stored_balance_witness :
  let stale :=
    mk_user 3 "rider1" "rider1@campus.edu"
      "e85978062768502c68bfd953d2d3793cf799b6abe697543512d8bc41bc60e210" RIDER 2.5 in
  let added := Cli.add_funds stale calm (start (seed_data empty_db) ["0.25"]) in
  fst added = Cli.Done tt /\
  balance_of "rider1" (Cli.database (snd added)) = Some 10.25%float.
Proof.
  intros stale added.
  destruct (add_funds_adds_to_the_stored_balance calm stale rider1
              (seed_data empty_db) "0.25" [] 0.25%float)
    as (H1 & H2 & _); try reflexivity.
  - unfold user_ids_unique. vm_compute.
    repeat constructor; cbn; intuition discriminate.
  - split; [exact H1|]. unfold added. rewrite H2. vm_compute. reflexivity.
Defined.
